(** * libaudit-go: the audit event receivers of audit_events.go

    A shallow embedding of [NewAuditEvent], [GetAuditEvents],
    [GetRawAuditEvents], [GetRawAuditMessages] and [GetAuditMessages],
    and the properties of frame splitting, error-frame handling,
    unknown-type detection and cancellation that hold of them.

    Conventions.
    - Go's [int] is 64 bits wide here, so [int(h.Len)] of a [uint32] never
      wraps; integers are [Z], and the one narrowing conversion of the file,
      [int32(uint32)], is written out in [int32_of_uint32].
    - A Go slice is a window on a backing array: [elems] are the bytes
      below [len], [spare] the bytes of the array between [len] and [cap].
      The bound of [b[:hi]] and [b[lo:hi]] is [cap(b)], the bound of
      [b[lo:]] is [len(b)] (Go specification, "Slice expressions").
    - A Go [string] is a byte sequence; it is a [string] here and
      [string(bytes)] is [string_of_list_byte].
    - The callback is recorded, not run: every function returns the list of
      events it caused (transport reads and callback invocations), in order,
      together with how it ended. *)

From Stdlib Require Import ZArith List Bool Lia.
From Stdlib.Strings Require Import String Ascii Byte.
From Stdlib Require Import DecimalString DecimalPos DecimalZ.
Import ListNotations.
Local Open Scope Z_scope.

(** ** Constants of package syscall (linux) *)

Definition NLMSG_HDRLEN : Z := 16.
Definition NLMSG_ALIGNTO : Z := 4.
Definition NLMSG_ERROR : Z := 2.

(** ** Byte slices *)

Record slice : Type := mkSlice {
  elems : list byte;   (* b[0], ..., b[len(b)-1] *)
  spare : list byte    (* the backing array from len(b) up to cap(b) *)
}.

Definition len (b : slice) : Z := Z.of_nat (List.length (elems b)).
Definition cap (b : slice) : Z := Z.of_nat (List.length (elems b) + List.length (spare b)).

(** [b[lo:]]: in range iff [0 <= lo <= len(b)]; panics otherwise. *)
Definition sliceFrom (b : slice) (lo : Z) : option slice :=
  if (0 <=? lo) && (lo <=? len b)
  then Some (mkSlice (skipn (Z.to_nat lo) (elems b)) (spare b))
  else None.

(** [b[:hi]] (and [b[0:hi]]): in range iff [0 <= hi <= cap(b)]. *)
Definition sliceTo (b : slice) (hi : Z) : option slice :=
  if (0 <=? hi) && (hi <=? cap b)
  then Some (mkSlice (firstn (Z.to_nat hi) (elems b ++ spare b))
                     (skipn (Z.to_nat hi) (elems b ++ spare b)))
  else None.

(** [string(b[:])] *)
Definition string_of_slice (b : slice) : string :=
  string_of_list_byte (elems b).

(** ** Byte order (package encoding/binary) *)

Inductive ByteOrder : Type := LittleEndian | BigEndian.

Definition byteZ (x : byte) : Z := Z.of_N (Byte.to_N x).

Fixpoint le_value (l : list byte) : Z :=
  match l with
  | [] => 0
  | x :: r => Z.lor (byteZ x) (Z.shiftl (le_value r) 8)
  end.

Definition uintOf (o : ByteOrder) (l : list byte) : Z :=
  match o with
  | LittleEndian => le_value l
  | BigEndian => le_value (rev l)
  end.

(** [order.Uint32(b)]: reads [b[0..3]]; panics when [len(b) < 4]. *)
Definition Uint32 (o : ByteOrder) (b : slice) : option Z :=
  if 4 <=? len b then Some (uintOf o (firstn 4 (elems b))) else None.

(** [int32(u)] for a [uint32] [u]. *)
Definition int32_of_uint32 (u : Z) : Z :=
  if u <? 2 ^ 31 then u else u - 2 ^ 32.

(** ** The netlink message header *)

Record NlMsghdr : Type := mkHdr {
  Len : Z;      (* uint32 *)
  Type_ : Z;    (* uint16 *)
  Flags : Z;    (* uint16 *)
  Seq : Z;      (* uint32 *)
  Pid : Z       (* uint32 *)
}.

Record NetlinkMessage : Type := mkMsg {
  Header : NlMsghdr;
  Data : slice
}.

Definition field (o : ByteOrder) (l : list byte) (off n : nat) : Z :=
  uintOf o (firstn n (skipn off l)).

(** The [unsafe.Pointer] cast of [&b[0]] to a [syscall.NlMsghdr] pointer:
    the sixteen bytes at the start of [b] seen as the header struct, in the
    byte order of the host. The caller has checked [len(b) >= NLMSG_HDRLEN]. *)
Definition headerAt (o : ByteOrder) (b : slice) : NlMsghdr :=
  let l := elems b in
  mkHdr (field o l 0 4) (field o l 4 2) (field o l 6 2)
        (field o l 8 4) (field o l 12 4).

(** Modelled from the spec: [nlmAlignOf] is declared next to the netlink
    connection, outside audit_events.go; the spec gives it as
    [round_up(header.length, ALIGN)], which the repository writes, after
    package syscall, as [(msglen + NLMSG_ALIGNTO - 1) & ^(NLMSG_ALIGNTO - 1)]. *)
Definition nlmAlignOf (msglen : Z) : Z :=
  Z.land (msglen + NLMSG_ALIGNTO - 1) (Z.lnot (NLMSG_ALIGNTO - 1)).

(** ** Errors, events and callbacks *)

(** [strconv.Itoa] and the [%d] verb of package fmt. *)
Definition Itoa (z : Z) : string := NilZero.string_of_int (Z.to_int z).

Definition byte_of_Z (z : Z) : byte :=
  match Byte.of_N (Z.to_N z) with Some x => x | None => x00 end.

(** [string(t)] for an integer [t]: the UTF-8 encoding of the code point
    [t], U+FFFD for a surrogate half. A [uint16] stays below 0x10000. *)
Definition string_of_rune (r : Z) : string :=
  string_of_list_byte
    (if r <? 128 then [byte_of_Z r]
     else if r <? 2048 then
       [byte_of_Z (Z.lor 192 (Z.shiftr r 6)); byte_of_Z (Z.lor 128 (Z.land r 63))]
     else if (55296 <=? r) && (r <=? 57343) then [xef; xbf; xbd]
     else [byte_of_Z (Z.lor 224 (Z.shiftr r 12));
           byte_of_Z (Z.lor 128 (Z.land (Z.shiftr r 6) 63));
           byte_of_Z (Z.lor 128 (Z.land r 63))]).

Inductive error : Type :=
| ErrReceiving (v : Z)            (* fmt.Errorf("error receiving events %d", v) *)
| ErrUnknownMessageType (t : Z)   (* fmt.Errorf("NewAuditEvent failed: unknown message type %d", t) *)
| ErrUnknownType (t : Z)          (* errors.New("Unknown Type: " + string(t)) *)
| ErrOther (msg : string).        (* an error made outside this file *)

(** The text of an error, its [Error()] method. *)
Definition Error (e : error) : string :=
  match e with
  | ErrReceiving v => "error receiving events " ++ Itoa v
  | ErrUnknownMessageType t => "NewAuditEvent failed: unknown message type " ++ Itoa t
  | ErrUnknownType t => "Unknown Type: " ++ string_of_rune t
  | ErrOther msg => msg
  end%string.

Record AuditEvent : Type := mkEvent {
  Serial : string;
  Timestamp : string;
  EventType : string;                  (* field Type *)
  EventData : list (string * string);  (* field Data *)
  Raw : string
}.

(** The arguments of one callback invocation, for each callback type; the
    variadic [args] are handed through unchanged and are left out. *)
Inductive EventCall : Type :=
| EventCb (nae : option AuditEvent) (err : option error).

Inductive RawEventCall : Type :=
| RawEventCb (m : string) (err : option error).

Inductive RawEventTypeCall : Type :=
| RawEventTypeCb (t : Z) (m : string) (err : option error).

(** What a driver does that can be seen from outside. *)
Inductive event (C : Type) : Type :=
| Read                  (* one call of s.Receive or s.ReceiveNoParse *)
| Callback (c : C).     (* one call of cb *)
Arguments Read {C}.
Arguments Callback {C} c.

(** How a run ends: it returns, it panics (an index or slice bound out of
    range), or it is still going when the fuel of the model is used up. *)
Inductive outcome (A : Type) : Type :=
| Ok (a : A)
| Panic
| Running.
Arguments Ok {A} a.
Arguments Panic {A}.
Arguments Running {A}.

(** A computation: the events it caused, and its outcome. *)
Definition M (E A : Type) : Type := (list E * outcome A)%type.

Definition ret {E A} (a : A) : M E A := ([], Ok a).

Definition bind {E A B} (m : M E A) (k : A -> M E B) : M E B :=
  match m with
  | (t, Ok a) => let (t', o) := k a in (t ++ t', o)
  | (t, Panic) => (t, Panic)
  | (t, Running) => (t, Running)
  end.

Notation "x <- m ;; k" := (bind m (fun x => k))
  (at level 61, m at next level, right associativity).
Notation "m ;;; k" := (bind m (fun _ => k))
  (at level 61, right associativity).

Definition emit {E} (e : E) : M E unit := ([e], Ok tt).
Definition panic {E A} : M E A := ([], Panic).
Definition running {E A} : M E A := ([], Running).

(** A slice expression or index that panics when out of range. *)
Definition checked {E A} (o : option A) : M E A :=
  match o with Some a => ret a | None => panic end.

(** [cb(...)]: the callback is called and returns. *)
Definition cb {C} (c : C) : M (event C) unit := emit (Callback c).

(** [for _, x := range l { f x }] *)
Fixpoint forEach {E A} (f : A -> M E unit) (l : list A) : M E unit :=
  match l with
  | [] => ret tt
  | x :: r => f x ;;; forEach f r
  end.

Definition trace {E A} (m : M E A) : list E := fst m.
Definition result {E A} (m : M E A) : outcome A := snd m.

(** The callback invocations among the events. *)
Fixpoint calls {C} (t : list (event C)) : list C :=
  match t with
  | [] => []
  | Read :: r => calls r
  | Callback c :: r => c :: calls r
  end.

(** The number of transport reads among the events. *)
Fixpoint reads {C} (t : list (event C)) : nat :=
  match t with
  | [] => O
  | Read :: r => S (reads r)
  | Callback _ :: r => reads r
  end.

(** ** The transport *)

(** The [Netlink] interface. Both methods are always called with the same
    arguments, so what matters is the answer to each call in turn:
    [Receive n] is the answer to the read made after [n] earlier ones. *)
Record Netlink : Type := mkNetlink {
  Receive : nat -> list NetlinkMessage + error;
  ReceiveNoParse : nat -> slice + error
}.

(** [s[n:]] on a string: panics when [n] is beyond the end. *)
Definition strFrom (s : string) (n : nat) : option string :=
  if (n <=? String.length s)%nat
  then Some (substring n (String.length s - n) s)
  else None.

Definition newline : string := String (ascii_of_nat 10) EmptyString.

(** ["auditConstant(" + strconv.Itoa(int(t)) + ")"] *)
Definition placeholder (t : Z) : string :=
  ("auditConstant(" ++ Itoa t ++ ")")%string.

(** ** The receivers *)

Section Receivers.

(** What audit_events.go takes from the rest of the package: the byte
    order of the host ([nativeEndian()]), the names of the message types
    ([auditConstant(t).String()], which for a code without a name is the
    placeholder above) and the record parser. *)
Variable nativeEndian : ByteOrder.
Variable auditConstantString : Z -> string.
Variable ParseAuditEvent : string -> Z -> bool -> AuditEvent + error.

(** [int32(nativeEndian().Uint32(d[0:4]))] *)
Definition errorCode {E} (d : slice) : M E Z :=
  d4 <- checked (sliceTo d 4) ;;
  u <- checked (Uint32 nativeEndian d4) ;;
  ret (int32_of_uint32 u).

Definition NewAuditEvent (msg : NetlinkMessage)
  : option AuditEvent * option error :=
  match ParseAuditEvent (string_of_slice (Data msg))
                        (Type_ (Header msg)) true with
  | inr err => (None, Some err)
  | inl x =>
      if String.eqb (EventType x) (placeholder (Type_ (Header msg)))
      then (None, Some (ErrUnknownMessageType (Type_ (Header msg))))
      else (Some x, None)
  end.

(** The body of [for _, msg := range msgs] in [GetAuditEvents] and, word
    for word, in [GetAuditMessages]. *)
Definition eventOfMessage (msg : NetlinkMessage) : M (event EventCall) unit :=
  if Type_ (Header msg) =? NLMSG_ERROR then
    err <- errorCode (Data msg) ;;
    if negb (err =? 0)
    then cb (EventCb None (Some (ErrReceiving err)))
    else ret tt
  else
    let (nae, err) := NewAuditEvent msg in
    cb (EventCb nae err).

(** The body of [for _, msg := range msgs] in [GetRawAuditEvents]: [m] and
    [err] start out empty, and the last line calls [cb(m, err)] whatever
    branch was taken. *)
Definition rawEventOfMessage (msg : NetlinkMessage)
  : M (event RawEventCall) unit :=
  me <- (if Type_ (Header msg) =? NLMSG_ERROR then
           v <- errorCode (Data msg) ;;
           (if negb (v =? 0)
            then cb (RawEventCb EmptyString (Some (ErrReceiving v)))
            else ret tt) ;;;
           ret (EmptyString, None)
         else
           let Type' := auditConstantString (Type_ (Header msg)) in
           if String.eqb Type' (placeholder (Type_ (Header msg)))
           then ret (EmptyString, Some (ErrUnknownType (Type_ (Header msg))))
           else
             name <- checked (strFrom Type' 6) ;;
             ret (("type=" ++ name ++ " msg="
                     ++ string_of_slice (Data msg) ++ newline)%string,
                  None)) ;;
  cb (RawEventCb (fst me) (snd me)).

Definition receive {C} (s : Netlink) (n : nat)
  : M (event C) (list NetlinkMessage + error) :=
  emit Read ;;; ret (Receive s n).

Definition receiveNoParse {C} (s : Netlink) (n : nat)
  : M (event C) (slice + error) :=
  emit Read ;;; ret (ReceiveNoParse s n).

(** [GetAuditEvents]: the goroutine it starts, which has made [n] reads
    so far. The loop has no exit; [fuel] bounds the iterations looked at. *)
Fixpoint GetAuditEvents (fuel : nat) (s : Netlink) (n : nat)
  : M (event EventCall) unit :=
  match fuel with
  | O => running
  | S fuel' =>
      r <- receive s n ;;
      match r with
      | inl msgs => forEach eventOfMessage msgs
      | inr _ => ret tt
      end ;;;
      GetAuditEvents fuel' s (S n)
  end.

Fixpoint GetRawAuditEvents (fuel : nat) (s : Netlink) (n : nat)
  : M (event RawEventCall) unit :=
  match fuel with
  | O => running
  | S fuel' =>
      r <- receive s n ;;
      match r with
      | inl msgs => forEach rawEventOfMessage msgs
      | inr _ => ret tt
      end ;;;
      GetRawAuditEvents fuel' s (S n)
  end.

(** [GetAuditMessages]: [done n] tells whether the receive on the done
    channel succeeds at the [select] that follows [n] reads. *)
Fixpoint GetAuditMessages (fuel : nat) (s : Netlink) (done : nat -> bool)
         (n : nat) : M (event EventCall) unit :=
  match fuel with
  | O => running
  | S fuel' =>
      if done n then ret tt
      else
        r <- receive s n ;;
        match r with
        | inl msgs => forEach eventOfMessage msgs
        | inr _ => ret tt
        end ;;;
        GetAuditMessages fuel' s done (S n)
  end.

(** *** GetRawAuditMessages *)

(** How one round of the splitting loop ends: at a [break], or at the
    bottom of the body with the rest of the buffer. *)
Inductive control : Type :=
| Break
| Next (b : slice).

(** The two arms of the length test are the same code up to the bound
    [n] of the text [string(b[:n])]: an error frame calls [cb] only for
    a code other than 0, any other frame always. *)
Definition deliver (h : NlMsghdr) (b : slice) (n : Z)
  : M (event RawEventTypeCall) unit :=
  if Type_ h =? NLMSG_ERROR then
    v <- errorCode b ;;
    if negb (v =? 0) then
      text <- checked (sliceTo b n) ;;
      cb (RawEventTypeCb (Type_ h) (string_of_slice text)
                         (Some (ErrReceiving v)))
    else ret tt
  else
    text <- checked (sliceTo b n) ;;
    cb (RawEventTypeCb (Type_ h) (string_of_slice text) None).

(** The body of [for len(b) >= syscall.NLMSG_HDRLEN]; [err] is the error
    of the read, which is nil where the loop stands. *)
Definition splitBody (err : option error) (b : slice)
  : M (event RawEventTypeCall) control :=
  let h := headerAt nativeEndian b in
  if (Len h <? NLMSG_HDRLEN) || (len b <? Len h) then ret Break
  else
    b <- checked (sliceFrom b NLMSG_HDRLEN) ;;
    let dlen := nlmAlignOf (Len h) - NLMSG_HDRLEN in
    match err with
    | Some _ => ret Break
    | None =>
        (if (len b =? Len h) || (dlen =? Len h)
         then deliver h b (Len h)
         else deliver h b (Len h - NLMSG_HDRLEN)) ;;;
        b <- checked (sliceFrom b dlen) ;;
        ret (Next b)
    end.

Fixpoint splitLoop (fuel : nat) (err : option error) (b : slice)
  : M (event RawEventTypeCall) unit :=
  match fuel with
  | O => running
  | S fuel' =>
      if NLMSG_HDRLEN <=? len b then
        c <- splitBody err b ;;
        match c with
        | Break => ret tt
        | Next b' => splitLoop fuel' err b'
        end
      else ret tt
  end.

(** The inner loop on the buffer of one read. Every round that goes on
    takes at least the sixteen bytes of a header off the buffer, so
    [len(b)] rounds and one more test are enough ([split_finishes]). *)
Definition split (b : slice) : M (event RawEventTypeCall) unit :=
  splitLoop (S (List.length (elems b))) None b.

Fixpoint GetRawAuditMessages (fuel : nat) (s : Netlink) (done : nat -> bool)
         (n : nat) : M (event RawEventTypeCall) unit :=
  match fuel with
  | O => running
  | S fuel' =>
      if done n then ret tt
      else
        r <- receiveNoParse s n ;;
        match r with
        | inl b => split b
        | inr _ => ret tt
        end ;;;
        GetRawAuditMessages fuel' s done (S n)
  end.

End Receivers.

(** ** Notions for the statements *)

(** The code that [errorCode] reads when it does not panic: the first four
    bytes of the backing array from the start of [d]. *)
Definition codeAt (o : ByteOrder) (d : slice) : Z :=
  int32_of_uint32 (uintOf o (firstn 4 (elems d ++ spare d))).

(** The buffer behind its first header: [b[syscall.NLMSG_HDRLEN:]]. *)
Definition afterHeader (b : slice) : slice :=
  mkSlice (skipn 16 (elems b)) (spare b).

(** The rest of the buffer behind [n] bytes. *)
Definition dropFront (b : slice) (n : Z) : slice :=
  mkSlice (skipn (Z.to_nat n) (elems b)) (spare b).

(** Whether the code of an error frame can be read at all. *)
Definition codeReadable (h : NlMsghdr) (b : slice) : bool :=
  negb (Type_ h =? NLMSG_ERROR) || (4 <=? cap b).

(** The bound of the text in one round: the whole rest of the buffer when
    it is exactly [h.Len] long, else [h.Len] less the header. *)
Definition textBound (o : ByteOrder) (b : slice) : Z :=
  let h := headerAt o b in
  if len (afterHeader b) =? Len h then Len h else Len h - NLMSG_HDRLEN.

(** A computation that makes no read and comes to an end. *)
Definition dispatches {C A} (m : M (event C) A) : Prop :=
  reads (trace m) = O /\ result m <> Running.

(** The shape that [GetRawAuditMessages] and [GetAuditMessages] share: a
    [select] on the done channel, then one cycle of read and dispatch. *)
Fixpoint cancellable {C} (cycle : nat -> M (event C) unit)
         (fuel : nat) (done : nat -> bool) (n : nat) : M (event C) unit :=
  match fuel with
  | O => running
  | S fuel' =>
      if done n then ret tt
      else cycle n ;;; cancellable cycle fuel' done (S n)
  end.


(** A frame as the transport lays it out: a header whose length covers
    the header and a text that is not empty, padded to the alignment; an
    error frame has its four bytes of code. *)
Definition wellFormedFrame (o : ByteOrder) (f : list byte) : Prop :=
  let h := headerAt o (mkSlice f []) in
  NLMSG_HDRLEN < Len h /\
  Z.of_nat (List.length f) = nlmAlignOf (Len h) /\
  (Type_ h = NLMSG_ERROR -> NLMSG_HDRLEN + 4 <= Len h).

(** What the callback is to get for such a frame: nothing for an
    acknowledgement, else the type and the text between the header and
    [h.Len], with the error of the code for an error frame. *)
Definition frameCalls (o : ByteOrder) (f : list byte) : list RawEventTypeCall :=
  let h := headerAt o (mkSlice f []) in
  let text :=
    string_of_list_byte
      (firstn (Z.to_nat (Len h - NLMSG_HDRLEN)) (skipn 16 f)) in
  if Type_ h =? NLMSG_ERROR then
    let v := int32_of_uint32 (uintOf o (firstn 4 (skipn 16 f))) in
    if v =? 0 then []
    else [RawEventTypeCb (Type_ h) text (Some (ErrReceiving v))]
  else [RawEventTypeCb (Type_ h) text None].

(** Every callback invocation among the events satisfies [P]. *)
Definition allCalls {C} (P : C -> Prop) (t : list (event C)) : Prop :=
  forall c, In (Callback c) t -> P c.

(** A callback invocation of [GetRawAuditMessages] is consistent: the error
    is nil for a frame that is not an error frame, and for an error frame
    it is the error of a code other than 0. *)
Definition rawTypeCallConsistent (c : RawEventTypeCall) : Prop :=
  match c with
  | RawEventTypeCb t _ None => t <> NLMSG_ERROR
  | RawEventTypeCb t _ (Some err) =>
      t = NLMSG_ERROR /\ exists v, err = ErrReceiving v /\ v <> 0
  end.

(** A callback invocation of [GetAuditEvents] or [GetAuditMessages] has
    either an event or an error, never both and never neither. *)
Definition eventCallConsistent (c : EventCall) : Prop :=
  match c with
  | EventCb (Some _) None => True
  | EventCb None (Some _) => True
  | _ => False
  end.

(** An acknowledgement among the messages of [Receive]. *)
Definition isAck (o : ByteOrder) (msg : NetlinkMessage) : bool :=
  (Type_ (Header msg) =? NLMSG_ERROR) && (codeAt o (Data msg) =? 0).

(** What the callback of [GetAuditEvents] and [GetAuditMessages] is to get
    for one message whose code, if it is an error frame, can be read. *)
Definition eventCalls (o : ByteOrder)
           (parse : string -> Z -> bool -> AuditEvent + error)
           (msg : NetlinkMessage) : list EventCall :=
  if isAck o msg then []
  else if Type_ (Header msg) =? NLMSG_ERROR
       then [EventCb None (Some (ErrReceiving (codeAt o (Data msg))))]
       else [EventCb (fst (NewAuditEvent parse msg)) (snd (NewAuditEvent parse msg))].

(** Whether the text of the code point [t] is other than its decimal
    numeral, for [n] values of [t] from [z] on. *)
Fixpoint runesDifferFrom (n : nat) (z : Z) : bool :=
  match n with
  | O => true
  | S n' => negb (String.eqb (string_of_rune z) (Itoa z))
            && runesDifferFrom n' (z + 1)
  end.

(** The read number [i] of the transport [s] fails, or it hands on a
    buffer made of the frames [fs], each as the transport lays it out,
    with fewer than 13 stray bytes behind them. *)
Definition handsOn (o : ByteOrder) (s : Netlink) (i : nat)
           (fs : list (list byte)) : Prop :=
  (exists e, ReceiveNoParse s i = inr e /\ fs = []) \/
  (exists tail sp,
      ReceiveNoParse s i = inl (mkSlice (List.concat fs ++ tail) sp) /\
      Forall (wellFormedFrame o) fs /\ (List.length tail < 13)%nat).

(** ** Sample inputs *)

Definition bytes (l : list Z) : list byte := map byte_of_Z l.

(** A buffer whose capacity is its length. *)
Definition exact (l : list Z) : slice := mkSlice (bytes l) [].

(** A little-endian header: length, type, and zero flags, sequence, pid. *)
Definition hdrLE (length type : Z) : list Z :=
  [length mod 256; length / 256 mod 256; length / 65536 mod 256; length / 16777216;
   type mod 256; type / 256; 0; 0; 0; 0; 0; 0; 0; 0; 0; 0].

Definition AUDIT_SYSCALL : Z := 1300.

(** One frame of 17 bytes, not padded to 20. *)
Definition unpadded17 : slice := exact (hdrLE 17 AUDIT_SYSCALL ++ [65]).

(** One frame of 20 bytes. *)
Definition frame20 : slice := exact (hdrLE 20 AUDIT_SYSCALL ++ [65; 66; 67; 68]).

(** An acknowledgement: an error frame with the code 0. *)
Definition ack20 : slice := exact (hdrLE 20 NLMSG_ERROR ++ [0; 0; 0; 0]).

(** A header that counts the 16 bytes of text only, as some kernel answers
    do: "audit(1:2): a=b" and a line feed behind the header. *)
Definition short16 : slice :=
  exact (hdrLE 16 AUDIT_SYSCALL ++
         [97; 117; 100; 105; 116; 40; 49; 58; 50; 41; 58; 32; 97; 61; 98; 10]).

(** A header that claims 8 bytes, fewer than a header has. *)
Definition runt : slice := exact (hdrLE 8 AUDIT_SYSCALL).

(** An error frame of a bare header, and a frame of 20 bytes behind it. *)
Definition bareError_then_frame : slice :=
  exact (hdrLE 16 NLMSG_ERROR ++ hdrLE 20 AUDIT_SYSCALL ++ [65; 66; 67; 68]).

(** An error frame of a bare header at the end of a buffer whose capacity
    is its length. *)
Definition bareError : slice := exact (hdrLE 16 NLMSG_ERROR).

(** An acknowledgement and an error with the code -5 as [Receive] hands
    them on. *)
Definition ackMessage : NetlinkMessage :=
  mkMsg (mkHdr 20 NLMSG_ERROR 0 0 0) (exact [0; 0; 0; 0]).

Definition eioMessage : NetlinkMessage :=
  mkMsg (mkHdr 20 NLMSG_ERROR 0 0 0) (exact [251; 255; 255; 255]).

(** A frame of the type 9999, which has no name. *)
Definition namelessMessage : NetlinkMessage :=
  mkMsg (mkHdr 20 9999 0 0 0) (exact [65; 66; 67; 68]).

(** A record parser that takes no text. *)
Definition rejectingParser (_ : string) (_ : Z) (_ : bool) : AuditEvent + error :=
  inr (ErrOther "parsing failed: malformed audit message").

(** A record parser that takes every text and sets [Type] with [name]. *)
Definition acceptingParser (name : Z -> string)
           (raw : string) (t : Z) (_ : bool) : AuditEvent + error :=
  inl (mkEvent "2" "1" (name t) [] raw).

(** A record parser that takes every text and sets [Type] to the name of
    the message type less its first six characters, the way
    [GetRawAuditEvents] writes the type; no type has a name. *)
Definition shorteningParser : string -> Z -> bool -> AuditEvent + error :=
  acceptingParser
    (fun t => substring 6 (String.length (placeholder t) - 6) (placeholder t)).

(** A transport whose every read fails. *)
Definition brokenTransport : Netlink :=
  mkNetlink (fun _ => inr (ErrOther "recvfrom failed"))
            (fun _ => inr (ErrOther "recvfrom failed")).

(** A transport that hands on [frame20] at every read, as a buffer and as
    a message. *)
Definition steadyTransport : Netlink :=
  mkNetlink
    (fun _ => inl [mkMsg (mkHdr 20 AUDIT_SYSCALL 0 0 0) (exact [65; 66; 67; 68])])
    (fun _ => inl frame20).

(** The done channel is signalled while the cycle number 1 is under way. *)
Definition doneDuringSecondCycle (n : nat) : bool := (2 <=? n)%nat.

(** Three frames as one read hands them on, with three stray bytes
    behind: a record, an acknowledgement, and a record with padding. *)
Definition threeFrames : list (list byte) :=
  [bytes (hdrLE 20 AUDIT_SYSCALL ++ [65; 66; 67; 68]);
   bytes (hdrLE 20 NLMSG_ERROR ++ [0; 0; 0; 0]);
   bytes (hdrLE 18 AUDIT_SYSCALL ++ [69; 70; 0; 0])].

(** The messages of one read: a record, an acknowledgement, an error. *)
Definition threeMessages : list NetlinkMessage :=
  [namelessMessage; ackMessage; eioMessage].

(** An error message whose data is empty, with no array behind it. *)
Definition emptyErrorMessage : NetlinkMessage :=
  mkMsg (mkHdr 16 NLMSG_ERROR 0 0 0) (exact []).

(** A transport whose reads all hand on a record, then an error message
    without its code, then an error message with the code -5. *)
Definition shortErrorTransport : Netlink :=
  mkNetlink (fun _ => inl ([namelessMessage] ++ emptyErrorMessage :: [eioMessage]))
            (fun _ => inr (ErrOther "recvfrom failed")).

(** A done channel that is never signalled. *)
Definition neverDone (_ : nat) : bool := false.

(** Names for the message types: one for 1300, none for the others. *)
Definition someNames (t : Z) : string :=
  if t =? AUDIT_SYSCALL then "AUDIT_SYSCALL"%string else placeholder t.

(** A record of the type 1300 as [Receive] hands it on. *)
Definition syscallMessage : NetlinkMessage :=
  mkMsg (mkHdr 20 AUDIT_SYSCALL 0 0 0) (exact [65; 66; 67; 68]).

(** A transport whose reads all hand on the frame of 17 bytes that has no
    padding. *)
Definition unpaddedTransport : Netlink :=
  mkNetlink (fun _ => inr (ErrOther "recvfrom failed"))
            (fun _ => inl unpadded17).

(** A transport that hands on [threeFrames] at its first read, fails at
    its second, and hands on the first of the three frames from then on. *)
Definition mixedTransport : Netlink :=
  mkNetlink (fun _ => inr (ErrOther "recvfrom failed"))
            (fun i => match i with
                      | O => inl (mkSlice (List.concat threeFrames ++ []) [])
                      | S O => inr (ErrOther "recvfrom failed")
                      | _ => inl (mkSlice (List.concat (firstn 1 threeFrames) ++ []) [])
                      end).

Definition mixedFrames (i : nat) : list (list byte) :=
  match i with
  | O => threeFrames
  | S O => []
  | _ => firstn 1 threeFrames
  end.

(** The done channel is signalled while the cycle number 2 is under way. *)
Definition doneDuringThirdCycle (n : nat) : bool := (3 <=? n)%nat.

(** * Properties *)

(** ** Alignment *)

Lemma nlmAlignOf_div (x : Z) : nlmAlignOf x = 4 * ((x + 3) / 4).
Proof.
  unfold nlmAlignOf, NLMSG_ALIGNTO.
  replace (x + 4 - 1) with (x + 3) by lia.
  change (4 - 1) with (Z.ones 2).
  rewrite <- Z.ldiff_land, Z.ldiff_ones_r by lia.
  rewrite Z.shiftr_div_pow2, Z.shiftl_mul_pow2 by lia.
  change (2 ^ 2) with 4. lia.
Qed.

Lemma nlmAlignOf_bounds (x : Z) : x <= nlmAlignOf x < x + 4.
Proof.
  rewrite nlmAlignOf_div.
  pose proof (Z.div_mod (x + 3) 4 ltac:(lia)).
  pose proof (Z.mod_pos_bound (x + 3) 4 ltac:(lia)).
  lia.
Qed.

Lemma nlmAlignOf_aligned (x : Z) : x mod 4 = 0 -> nlmAlignOf x = x.
Proof.
  intros Hx. rewrite nlmAlignOf_div.
  pose proof (Z.div_mod x 4 ltac:(lia)).
  replace (x + 3) with (3 + (x / 4) * 4) by lia.
  rewrite Z.div_add by lia. change (3 / 4) with 0. lia.
Qed.

Lemma nlmAlignOf_unaligned (x : Z) : x mod 4 <> 0 -> x < nlmAlignOf x.
Proof.
  intros Hx. rewrite nlmAlignOf_div.
  pose proof (Z.div_mod x 4 ltac:(lia)).
  pose proof (Z.mod_pos_bound x 4 ltac:(lia)).
  assert ((x + 3) / 4 = x / 4 + 1) as ->; [| lia].
  symmetry. apply Z.div_unique with (r := x mod 4 - 1); lia.
Qed.

(** The aligned length less the header is never the length itself: the
    second half of the length test in the splitting loop is never true. *)
Lemma dlen_neq_Len (x : Z) : nlmAlignOf x - NLMSG_HDRLEN <> x.
Proof. pose proof (nlmAlignOf_bounds x). unfold NLMSG_HDRLEN. lia. Qed.

(** ** Computations *)

Lemma bind_ret {E A B} (a : A) (k : A -> M E B) : bind (ret a) k = k a.
Proof. unfold bind, ret. destruct (k a). reflexivity. Qed.

Lemma bind_emit {E B} (e : E) (k : unit -> M E B) :
  bind (emit e) k = (e :: trace (k tt), result (k tt)).
Proof. unfold bind, emit, trace, result. destruct (k tt). reflexivity. Qed.

Lemma bind_assoc {E A B C} (m : M E A) (k : A -> M E B) (k' : B -> M E C) :
  bind (bind m k) k' = bind m (fun a => bind (k a) k').
Proof.
  destruct m as [t [a| |]]; cbn; try reflexivity.
  destruct (k a) as [t1 [b| |]]; cbn; try reflexivity.
  destruct (k' b) as [t2 o]. now rewrite app_assoc.
Qed.

Lemma trace_bind {E A B} (m : M E A) (k : A -> M E B) :
  trace (bind m k) =
  trace m ++ match result m with Ok a => trace (k a) | _ => [] end.
Proof.
  destruct m as [t [a| |]]; cbn; rewrite ?app_nil_r; try reflexivity.
  now destruct (k a).
Qed.

Lemma result_bind {E A B} (m : M E A) (k : A -> M E B) :
  result (bind m k) =
  match result m with Ok a => result (k a) | Panic => Panic | Running => Running end.
Proof.
  destruct m as [t [a| |]]; cbn; try reflexivity.
  now destruct (k a).
Qed.

Lemma M_eta {E A} (m : M E A) : m = (trace m, result m).
Proof. now destruct m. Qed.

Lemma reads_app {C} (t u : list (event C)) : (reads (t ++ u) = reads t + reads u)%nat.
Proof.
  induction t as [| [| c] t IH]; cbn; [reflexivity | now rewrite IH | assumption].
Qed.

Lemma string_of_list_byte_length (l : list byte) :
  String.length (string_of_list_byte l) = List.length l.
Proof. induction l as [| x l IH]; simpl; [reflexivity | now f_equal]. Qed.

(** ** Slices *)

Lemma sliceFrom_Some (b : slice) (lo : Z) :
  0 <= lo <= len b ->
  sliceFrom b lo = Some (mkSlice (skipn (Z.to_nat lo) (elems b)) (spare b)).
Proof.
  intros H. unfold sliceFrom.
  destruct (Z.leb_spec 0 lo), (Z.leb_spec lo (len b)); cbn; try lia; reflexivity.
Qed.

Lemma sliceFrom_None (b : slice) (lo : Z) :
  sliceFrom b lo = None <-> ~ (0 <= lo <= len b).
Proof.
  unfold sliceFrom.
  destruct (Z.leb_spec 0 lo), (Z.leb_spec lo (len b)); cbn;
    split; intros; try discriminate; try lia; reflexivity.
Qed.

Lemma sliceTo_Some (b : slice) (hi : Z) :
  0 <= hi <= cap b ->
  sliceTo b hi = Some (mkSlice (firstn (Z.to_nat hi) (elems b ++ spare b))
                               (skipn (Z.to_nat hi) (elems b ++ spare b))).
Proof.
  intros H. unfold sliceTo.
  destruct (Z.leb_spec 0 hi), (Z.leb_spec hi (cap b)); cbn; try lia; reflexivity.
Qed.

Lemma sliceTo_None (b : slice) (hi : Z) :
  sliceTo b hi = None <-> ~ (0 <= hi <= cap b).
Proof.
  unfold sliceTo.
  destruct (Z.leb_spec 0 hi), (Z.leb_spec hi (cap b)); cbn;
    split; intros; try discriminate; try lia; reflexivity.
Qed.

Lemma len_le_cap (b : slice) : 0 <= len b <= cap b.
Proof. unfold len, cap. lia. Qed.

(** Within the length, [b[:hi]] has the first [hi] bytes of [b]. *)
Lemma sliceTo_elems (b : slice) (hi : Z) :
  0 <= hi <= len b ->
  exists r, sliceTo b hi = Some r /\ elems r = firstn (Z.to_nat hi) (elems b).
Proof.
  intros H. pose proof (len_le_cap b).
  rewrite sliceTo_Some by lia. eexists; split; [reflexivity |]. cbn.
  rewrite firstn_app.
  replace (Z.to_nat hi - List.length (elems b))%nat with O by (unfold len in H; lia).
  now rewrite firstn_O, app_nil_r.
Qed.

(** ** The error code of a transport-error frame *)

Lemma errorCode_spec {E} (o : ByteOrder) (d : slice) :
  @errorCode o E d = if 4 <=? cap d then ret (codeAt o d) else panic.
Proof.
  unfold errorCode. destruct (Z.leb_spec 4 (cap d)) as [H | H].
  - rewrite sliceTo_Some by lia. cbn [checked]. rewrite bind_ret.
    unfold Uint32, len. cbn [elems].
    rewrite length_firstn, length_app.
    change (Z.to_nat 4) with 4%nat.
    assert (4 <= List.length (elems d) + List.length (spare d))%nat
      by (unfold cap in H; lia).
    rewrite Nat.min_l by assumption. cbn [Z.of_nat Z.leb Z.compare Pos.of_succ_nat
      Pos.succ Pos.compare Pos.compare_cont checked].
    rewrite bind_ret. unfold codeAt.
    now rewrite firstn_firstn.
  - assert (sliceTo d 4 = None) as -> by (apply sliceTo_None; lia).
    reflexivity.
Qed.

(** If the frame body has its four bytes, these are the code. *)
Lemma codeAt_elems (o : ByteOrder) (d : slice) :
  4 <= len d -> codeAt o d = int32_of_uint32 (uintOf o (firstn 4 (elems d))).
Proof.
  intros H. unfold codeAt. rewrite firstn_app.
  replace (4 - List.length (elems d))%nat with O by (unfold len in H; lia).
  now rewrite firstn_O, app_nil_r.
Qed.

(** ** One round of the splitting loop *)

Section Split.

Variable o : ByteOrder.

Lemma len_afterHeader (b : slice) :
  NLMSG_HDRLEN <= len b -> len (afterHeader b) = len b - NLMSG_HDRLEN.
Proof.
  unfold len, afterHeader, NLMSG_HDRLEN. cbn [elems]. rewrite length_skipn. lia.
Qed.

(** A frame other than an error frame: [cb] is called with the text. *)
Lemma deliver_plain (h : NlMsghdr) (b : slice) (n : Z) :
  Type_ h <> NLMSG_ERROR -> 0 <= n <= len b ->
  deliver o h b n =
  cb (RawEventTypeCb (Type_ h)
        (string_of_list_byte (firstn (Z.to_nat n) (elems b))) None).
Proof.
  intros Ht Hn. unfold deliver.
  destruct (Z.eqb_spec (Type_ h) NLMSG_ERROR) as [| _]; [contradiction |].
  destruct (sliceTo_elems b n Hn) as (r & -> & Hr).
  cbn [checked]. rewrite bind_ret. unfold string_of_slice. now rewrite Hr.
Qed.

(** An error frame: nothing for the code 0, one call for another code,
    a panic when there are no four bytes to read. *)
Lemma deliver_error (h : NlMsghdr) (b : slice) (n : Z) :
  Type_ h = NLMSG_ERROR -> 0 <= n <= len b ->
  deliver o h b n =
  if 4 <=? cap b then
    if codeAt o b =? 0 then ret tt
    else cb (RawEventTypeCb (Type_ h)
               (string_of_list_byte (firstn (Z.to_nat n) (elems b)))
               (Some (ErrReceiving (codeAt o b))))
  else panic.
Proof.
  intros Ht Hn. unfold deliver. rewrite Ht, Z.eqb_refl, errorCode_spec.
  destruct (4 <=? cap b); [| reflexivity].
  rewrite bind_ret. destruct (codeAt o b =? 0); cbn [negb]; [reflexivity |].
  destruct (sliceTo_elems b n Hn) as (r & -> & Hr).
  cbn [checked]. rewrite bind_ret. unfold string_of_slice. now rewrite Hr.
Qed.

Lemma textBound_range (b : slice) :
  NLMSG_HDRLEN <= Len (headerAt o b) <= len b ->
  0 <= textBound o b <= len (afterHeader b).
Proof.
  intros H. unfold textBound.
  rewrite len_afterHeader by lia.
  destruct (Z.eqb_spec (len b - NLMSG_HDRLEN) (Len (headerAt o b)));
    unfold NLMSG_HDRLEN in *; lia.
Qed.

(** A round on a header whose length is in range. *)
Lemma splitBody_valid (b : slice) :
  NLMSG_HDRLEN <= Len (headerAt o b) <= len b ->
  splitBody o None b =
  (deliver o (headerAt o b) (afterHeader b) (textBound o b) ;;;
   b' <- checked (sliceFrom (afterHeader b)
                    (nlmAlignOf (Len (headerAt o b)) - NLMSG_HDRLEN)) ;;
   ret (Next b')).
Proof.
  intros H. unfold splitBody. cbv zeta.
  destruct (Z.ltb_spec (Len (headerAt o b)) NLMSG_HDRLEN); [lia |].
  destruct (Z.ltb_spec (len b) (Len (headerAt o b))); [lia |].
  cbn [orb].
  rewrite sliceFrom_Some by (unfold NLMSG_HDRLEN in *; lia).
  cbn [checked]. rewrite bind_ret.
  change (mkSlice (skipn (Z.to_nat NLMSG_HDRLEN) (elems b)) (spare b))
    with (afterHeader b).
  unfold textBound. cbv zeta.
  destruct (Z.eqb_spec (nlmAlignOf (Len (headerAt o b)) - NLMSG_HDRLEN)
                       (Len (headerAt o b))) as [e | _];
    [now apply dlen_neq_Len in e |].
  rewrite orb_false_r.
  now destruct (len (afterHeader b) =? Len (headerAt o b)).
Qed.

(** A round on a header whose length is out of range: a [break]. *)
Lemma splitBody_invalid (err : option error) (b : slice) :
  Len (headerAt o b) < NLMSG_HDRLEN \/ len b < Len (headerAt o b) ->
  splitBody o err b = ret Break.
Proof.
  intros H. unfold splitBody. cbv zeta.
  destruct (Z.ltb_spec (Len (headerAt o b)) NLMSG_HDRLEN);
    destruct (Z.ltb_spec (len b) (Len (headerAt o b))); cbn [orb];
    try reflexivity; lia.
Qed.

Lemma sliceFrom_afterHeader (b : slice) (n : Z) :
  NLMSG_HDRLEN <= len b -> NLMSG_HDRLEN <= n ->
  sliceFrom (afterHeader b) (n - NLMSG_HDRLEN) =
  if n <=? len b then Some (dropFront b n) else None.
Proof.
  intros Hb Hn. destruct (Z.leb_spec n (len b)) as [H | H].
  - rewrite sliceFrom_Some by (rewrite len_afterHeader; lia).
    unfold afterHeader, dropFront. cbn [elems spare]. rewrite skipn_skipn.
    unfold NLMSG_HDRLEN in *.
    now replace (Z.to_nat (n - 16) + 16)%nat with (Z.to_nat n) by lia.
  - apply sliceFrom_None. rewrite len_afterHeader by assumption. lia.
Qed.

Lemma result_deliver (h : NlMsghdr) (b : slice) (n : Z) :
  0 <= n <= len b ->
  result (deliver o h b n) = if codeReadable h b then Ok tt else Panic.
Proof.
  intros Hn. unfold codeReadable.
  destruct (Z.eqb_spec (Type_ h) NLMSG_ERROR) as [Ht | Ht]; cbn [negb orb].
  - rewrite deliver_error by assumption.
    destruct (4 <=? cap b); [| reflexivity]. now destruct (codeAt o b =? 0).
  - now rewrite deliver_plain.
Qed.

(** The outcome of a round on a header whose length is in range. *)
Lemma result_splitBody (b : slice) :
  NLMSG_HDRLEN <= Len (headerAt o b) <= len b ->
  result (splitBody o None b) =
  if codeReadable (headerAt o b) (afterHeader b) then
    if nlmAlignOf (Len (headerAt o b)) <=? len b
    then Ok (Next (dropFront b (nlmAlignOf (Len (headerAt o b)))))
    else Panic
  else Panic.
Proof.
  intros H. rewrite splitBody_valid by assumption.
  rewrite result_bind, result_deliver by now apply textBound_range.
  destruct (codeReadable _ _); [| reflexivity].
  rewrite sliceFrom_afterHeader
    by (pose proof (nlmAlignOf_bounds (Len (headerAt o b))); lia).
  now destruct (_ <=? _).
Qed.

(** The callback invocations of a round are those of [deliver]. *)
Lemma trace_splitBody (b : slice) :
  NLMSG_HDRLEN <= Len (headerAt o b) <= len b ->
  trace (splitBody o None b) =
  trace (deliver o (headerAt o b) (afterHeader b) (textBound o b)).
Proof.
  intros H. rewrite splitBody_valid by assumption.
  rewrite trace_bind, result_deliver by now apply textBound_range.
  destruct (codeReadable _ _); [| now rewrite app_nil_r].
  rewrite sliceFrom_afterHeader
    by (pose proof (nlmAlignOf_bounds (Len (headerAt o b))); lia).
  destruct (_ <=? _); cbn; now rewrite app_nil_r.
Qed.

(** ** The splitting loop *)

Lemma splitLoop_short (fuel : nat) (err : option error) (b : slice) :
  len b < NLMSG_HDRLEN -> splitLoop o (S fuel) err b = ret tt.
Proof.
  intros H. cbn [splitLoop].
  now destruct (Z.leb_spec NLMSG_HDRLEN (len b)); [lia |].
Qed.

Lemma splitLoop_round (fuel : nat) (err : option error) (b : slice) :
  NLMSG_HDRLEN <= len b ->
  splitLoop o (S fuel) err b =
  (c <- splitBody o err b ;;
   match c with Break => ret tt | Next b' => splitLoop o fuel err b' end).
Proof.
  intros H. cbn [splitLoop].
  now destruct (Z.leb_spec NLMSG_HDRLEN (len b)); [| lia].
Qed.

Lemma splitLoop_invalid (fuel : nat) (err : option error) (b : slice) :
  NLMSG_HDRLEN <= len b ->
  Len (headerAt o b) < NLMSG_HDRLEN \/ len b < Len (headerAt o b) ->
  splitLoop o (S fuel) err b = ret tt.
Proof.
  intros H Hbad.
  now rewrite splitLoop_round, splitBody_invalid, bind_ret.
Qed.

(** The loop ends within the fuel that [split] gives it. *)
Lemma splitLoop_finishes (fuel : nat) (b : slice) :
  (List.length (elems b) < fuel)%nat ->
  result (splitLoop o fuel None b) <> Running.
Proof.
  revert b. induction fuel as [| fuel IH]; intros b Hf; [lia |].
  destruct (Z.lt_ge_cases (len b) NLMSG_HDRLEN) as [Hs | Hl].
  - rewrite splitLoop_short by assumption. discriminate.
  - destruct (Z.lt_ge_cases (Len (headerAt o b)) NLMSG_HDRLEN) as [H1 | H1];
      [rewrite splitLoop_invalid by auto; discriminate |].
    destruct (Z.lt_ge_cases (len b) (Len (headerAt o b))) as [H2 | H2];
      [rewrite splitLoop_invalid by auto; discriminate |].
    rewrite splitLoop_round, result_bind, result_splitBody by lia.
    destruct (codeReadable _ _); [| discriminate].
    destruct (Z.leb_spec (nlmAlignOf (Len (headerAt o b))) (len b));
      [| discriminate].
    apply IH. unfold dropFront, len, NLMSG_HDRLEN in *. cbn [elems].
    rewrite length_skipn.
    pose proof (nlmAlignOf_bounds (Len (headerAt o b))). lia.
Qed.

Lemma split_finishes (b : slice) : result (split o b) <> Running.
Proof. apply splitLoop_finishes. lia. Qed.

End Split.

(** ** Malformed headers *)

(** C8. When the header at the front of what remains of the buffer has a
    length below the header size or beyond the remaining bytes, the round
    is a [break]: the loop ends there with no callback invocation, no
    further frame and no panic, whatever follows in the buffer. *)
Theorem C8_malformed_header_stops (o : ByteOrder) (fuel : nat) (b : slice) :
  NLMSG_HDRLEN <= len b ->
  Len (headerAt o b) < NLMSG_HDRLEN \/ len b < Len (headerAt o b) ->
  splitBody o None b = ([], Ok Break) /\
  splitLoop o (S fuel) None b = ([], Ok tt) /\
  split o b = ([], Ok tt).
Proof.
  intros Hb Hbad. split; [| split].
  - now apply splitBody_invalid.
  - now apply splitLoop_invalid.
  - now apply splitLoop_invalid.
Qed.

Lemma C8_witness :
  splitBody LittleEndian None runt = ([], Ok Break) /\
  splitLoop LittleEndian 1 None runt = ([], Ok tt) /\
  split LittleEndian runt = ([], Ok tt).
Proof.
  apply (C8_malformed_header_stops LittleEndian 0 runt).
  - vm_compute. discriminate.
  - left. vm_compute. reflexivity.
Defined.

(** ** The advance to the next frame *)

(** C4. In a round on a header whose length is in range and whose frame is
    handed on without a panic, the last statement [b = b[dlen:]] panics
    exactly when the aligned length is beyond the header and what is left
    behind it. So a buffer that ends at an [h.Len] that is no multiple of
    four makes the loop panic. *)
Theorem C4_advance_needs_padding (o : ByteOrder) (b : slice) :
  NLMSG_HDRLEN <= Len (headerAt o b) <= len b ->
  (codeReadable (headerAt o b) (afterHeader b) = true ->
   (result (splitBody o None b) = Panic <->
    ~ nlmAlignOf (Len (headerAt o b)) <= NLMSG_HDRLEN + len (afterHeader b))) /\
  (Len (headerAt o b) mod 4 <> 0 -> len b = Len (headerAt o b) ->
   nlmAlignOf (Len (headerAt o b)) - NLMSG_HDRLEN > len (afterHeader b) /\
   result (splitBody o None b) = Panic /\
   result (split o b) = Panic).
Proof.
  intros H. split.
  - intros Hr. rewrite result_splitBody, Hr, len_afterHeader by lia.
    destruct (Z.leb_spec (nlmAlignOf (Len (headerAt o b))) (len b));
      split; intros; try discriminate; try reflexivity; lia.
  - intros Hm He.
    pose proof (nlmAlignOf_unaligned _ Hm) as Hlt.
    assert (result (splitBody o None b) = Panic) as Hp.
    { rewrite result_splitBody by assumption.
      destruct (codeReadable _ _); [| reflexivity].
      now destruct (Z.leb_spec (nlmAlignOf (Len (headerAt o b))) (len b)); [lia |]. }
    split; [rewrite len_afterHeader by lia; lia |]. split; [assumption |].
    unfold split. rewrite splitLoop_round, result_bind, Hp by lia. reflexivity.
Qed.

Lemma C4_witness :
  nlmAlignOf 17 - NLMSG_HDRLEN > len (afterHeader unpadded17) /\
  result (splitBody LittleEndian None unpadded17) = Panic /\
  result (split LittleEndian unpadded17) = Panic.
Proof.
  refine (proj2 (C4_advance_needs_padding LittleEndian unpadded17 _) _ _).
  - vm_compute. split; discriminate.
  - vm_compute. discriminate.
  - vm_compute. reflexivity.
Defined.




(** ** The text of a frame *)

(** C2, as the spec has it, takes the text to be the bytes from the header
    size up to [h.Len] of the frame. In [short16] the remaining buffer
    behind the header is as long as [h.Len] says, the first arm of the
    length test is taken, and the text has all 16 bytes behind the header,
    not the none that lie between 16 and 16. *)
Lemma C2_counterexample :
  ~ (forall (o : ByteOrder) (b : slice),
        NLMSG_HDRLEN <= Len (headerAt o b) <= len b ->
        len (afterHeader b) = Len (headerAt o b) \/
        nlmAlignOf (Len (headerAt o b)) - NLMSG_HDRLEN = Len (headerAt o b) ->
        forall t m e,
          In (Callback (RawEventTypeCb t m e)) (trace (splitBody o None b)) ->
          m = string_of_list_byte
                (firstn (Z.to_nat (Len (headerAt o b) - NLMSG_HDRLEN))
                        (skipn 16 (elems b)))).
Proof.
  intros H.
  specialize (H LittleEndian short16).
  assert (trace (splitBody LittleEndian None short16) =
          [Callback (RawEventTypeCb 1300 ("audit(1:2): a=b" ++ newline) None)]) as E
    by (vm_compute; reflexivity).
  rewrite E in H.
  specialize (H ltac:(vm_compute; split; discriminate)
                ltac:(left; vm_compute; reflexivity)
                _ _ _ (or_introl eq_refl)).
  vm_compute in H. discriminate H.
Qed.

(** C2, amended. In a round whose length test holds (what is left behind
    the header is exactly [h.Len] long, or [dlen] is [h.Len]), every
    callback invocation has as its text the [h.Len] bytes that follow the
    header, which is all that is left of the buffer; a frame that is not
    an error frame is handed on so, and an error frame with a code other
    than 0 as well. *)
Theorem C2_text_of_the_first_arm (o : ByteOrder) (b : slice) :
  NLMSG_HDRLEN <= Len (headerAt o b) <= len b ->
  len (afterHeader b) = Len (headerAt o b) \/
  nlmAlignOf (Len (headerAt o b)) - NLMSG_HDRLEN = Len (headerAt o b) ->
  let text := string_of_list_byte (skipn 16 (elems b)) in
  Z.of_nat (String.length text) = Len (headerAt o b) /\
  (forall t m e,
      In (Callback (RawEventTypeCb t m e)) (trace (splitBody o None b)) ->
      m = text) /\
  (Type_ (headerAt o b) <> NLMSG_ERROR ->
   trace (splitBody o None b) =
   [Callback (RawEventTypeCb (Type_ (headerAt o b)) text None)]) /\
  (Type_ (headerAt o b) = NLMSG_ERROR -> 4 <= cap (afterHeader b) ->
   codeAt o (afterHeader b) <> 0 ->
   trace (splitBody o None b) =
   [Callback (RawEventTypeCb NLMSG_ERROR text
                (Some (ErrReceiving (codeAt o (afterHeader b)))))]).
Proof.
  intros H Hq text.
  assert (len (afterHeader b) = Len (headerAt o b)) as Hl
    by (destruct Hq as [Hq | Hq]; [assumption | now apply dlen_neq_Len in Hq]).
  assert (textBound o b = Len (headerAt o b)) as Hb
    by (unfold textBound; cbv zeta; now rewrite Hl, Z.eqb_refl).
  assert (firstn (Z.to_nat (Len (headerAt o b))) (elems (afterHeader b)) =
          skipn 16 (elems b)) as Hf.
  { apply firstn_all2. unfold len in Hl. cbn [afterHeader elems] in *.
    rewrite <- Hl, Nat2Z.id. apply Nat.le_refl. }
  assert (0 <= Len (headerAt o b) <= len (afterHeader b)) as Hn
    by (unfold NLMSG_HDRLEN in H; lia).
  rewrite trace_splitBody, Hb by assumption.
  split; [| split; [| split]].
  - subst text. rewrite string_of_list_byte_length.
    unfold len in Hl. cbn [afterHeader elems] in Hl. exact Hl.
  - intros t m e Hin.
    destruct (Z.eq_dec (Type_ (headerAt o b)) NLMSG_ERROR) as [Ht | Ht].
    + rewrite deliver_error, Hf in Hin by assumption.
      destruct (4 <=? cap (afterHeader b)); [| destruct Hin].
      destruct (codeAt o (afterHeader b) =? 0); [destruct Hin |].
      destruct Hin as [Hin | []]. now inversion Hin.
    + rewrite deliver_plain, Hf in Hin by assumption.
      destruct Hin as [Hin | []]. now inversion Hin.
  - intros Ht. now rewrite deliver_plain, Hf.
  - intros Ht Hc Hv. rewrite deliver_error, Hf by assumption.
    destruct (Z.leb_spec 4 (cap (afterHeader b))); [| lia].
    destruct (Z.eqb_spec (codeAt o (afterHeader b)) 0); [contradiction |].
    now rewrite Ht.
Qed.

Lemma C2_witness :
  let text := ("audit(1:2): a=b" ++ newline)%string in
  Z.of_nat (String.length text) = 16 /\
  (forall t m e,
      In (Callback (RawEventTypeCb t m e))
         (trace (splitBody LittleEndian None short16)) ->
      m = text) /\
  (1300 <> NLMSG_ERROR ->
   trace (splitBody LittleEndian None short16) =
   [Callback (RawEventTypeCb 1300 text None)]) /\
  (1300 = NLMSG_ERROR -> 4 <= cap (afterHeader short16) ->
   codeAt LittleEndian (afterHeader short16) <> 0 ->
   trace (splitBody LittleEndian None short16) =
   [Callback (RawEventTypeCb NLMSG_ERROR text
                (Some (ErrReceiving (codeAt LittleEndian (afterHeader short16)))))]).
Proof.
  refine (C2_text_of_the_first_arm LittleEndian short16 _ _).
  - vm_compute. split; discriminate.
  - left. vm_compute. reflexivity.
Defined.

(** The other arm of the length test: where what is left behind the header
    is not exactly [h.Len] long, the text is the bytes of the frame from
    the header size up to [h.Len]. This is so in particular where the
    remaining buffer, header and all, is exactly [h.Len] long. *)
Lemma text_of_the_second_arm (o : ByteOrder) (b : slice) :
  NLMSG_HDRLEN <= Len (headerAt o b) <= len b ->
  len (afterHeader b) <> Len (headerAt o b) ->
  forall t m e,
    In (Callback (RawEventTypeCb t m e)) (trace (splitBody o None b)) ->
    m = string_of_list_byte
          (firstn (Z.to_nat (Len (headerAt o b) - NLMSG_HDRLEN))
                  (skipn 16 (elems b))).
Proof.
  intros H Hne t m e Hin.
  assert (textBound o b = Len (headerAt o b) - NLMSG_HDRLEN) as Hb.
  { unfold textBound. cbv zeta.
    now destruct (Z.eqb_spec (len (afterHeader b)) (Len (headerAt o b))). }
  assert (0 <= Len (headerAt o b) - NLMSG_HDRLEN <= len (afterHeader b)) as Hn
    by (rewrite len_afterHeader; lia).
  rewrite trace_splitBody, Hb in Hin by assumption.
  destruct (Z.eq_dec (Type_ (headerAt o b)) NLMSG_ERROR) as [Ht | Ht].
  - rewrite deliver_error in Hin by assumption.
    destruct (4 <=? cap (afterHeader b)); [| destruct Hin].
    destruct (codeAt o (afterHeader b) =? 0); [destruct Hin |].
    destruct Hin as [Hin | []]. now inversion Hin.
  - rewrite deliver_plain in Hin by assumption.
    destruct Hin as [Hin | []]. now inversion Hin.
Qed.

(** ** A buffer that is one frame *)

(** C3, as the spec has it, has one callback invocation for every buffer
    that is a single frame with [h.Len] the length of the buffer. The
    acknowledgement [ack20] is such a buffer, and the callback is not
    invoked for it. *)
Lemma C3_counterexample :
  ~ (forall (o : ByteOrder) (b : slice),
        NLMSG_HDRLEN <= len b -> Len (headerAt o b) = len b ->
        exists e,
          calls (trace (split o b)) =
          [RawEventTypeCb (Type_ (headerAt o b))
             (string_of_list_byte (skipn 16 (elems b))) e]).
Proof.
  intros H.
  destruct (H LittleEndian ack20) as [e He];
    [vm_compute; discriminate | vm_compute; reflexivity |].
  vm_compute in He. discriminate He.
Qed.

(** C3, amended. For a buffer that is a single frame with [h.Len] the
    length of the buffer, and that is not an error frame whose code is 0
    or cannot be read, the loop invokes the callback exactly once, with all
    the bytes behind the header as the text; it then returns when the
    length is a multiple of four. *)
Theorem C3_single_frame_whole_text (o : ByteOrder) (b : slice) :
  NLMSG_HDRLEN <= len b ->
  Len (headerAt o b) = len b ->
  Type_ (headerAt o b) <> NLMSG_ERROR \/
  (4 <= cap (afterHeader b) /\ codeAt o (afterHeader b) <> 0) ->
  trace (split o b) =
    [Callback
       (RawEventTypeCb (Type_ (headerAt o b))
          (string_of_list_byte (skipn 16 (elems b)))
          (if Type_ (headerAt o b) =? NLMSG_ERROR
           then Some (ErrReceiving (codeAt o (afterHeader b)))
           else None))] /\
  (len b mod 4 = 0 -> result (split o b) = Ok tt).
Proof.
  intros Hb Hl Hs.
  assert (NLMSG_HDRLEN <= Len (headerAt o b) <= len b) as Hv by lia.
  assert (textBound o b = len (afterHeader b)) as Ht.
  { unfold textBound. cbv zeta. rewrite len_afterHeader, Hl by assumption.
    destruct (Z.eqb_spec (len b - NLMSG_HDRLEN) (len b)) as [e | _];
      [unfold NLMSG_HDRLEN in e; lia | reflexivity]. }
  assert (firstn (Z.to_nat (len (afterHeader b))) (elems (afterHeader b)) =
          skipn 16 (elems b)) as Hf.
  { apply firstn_all2. unfold len. rewrite Nat2Z.id. apply Nat.le_refl. }
  assert (0 <= len (afterHeader b) <= len (afterHeader b)) as Hn
    by (pose proof (len_le_cap (afterHeader b)); lia).
  assert (codeReadable (headerAt o b) (afterHeader b) = true) as Hr.
  { unfold codeReadable. destruct Hs as [Hs | [Hs _]].
    - now destruct (Z.eqb_spec (Type_ (headerAt o b)) NLMSG_ERROR).
    - destruct (Z.leb_spec 4 (cap (afterHeader b))); [apply orb_true_r | lia]. }
  assert (trace (splitBody o None b) =
          [Callback
             (RawEventTypeCb (Type_ (headerAt o b))
                (string_of_list_byte (skipn 16 (elems b)))
                (if Type_ (headerAt o b) =? NLMSG_ERROR
                 then Some (ErrReceiving (codeAt o (afterHeader b)))
                 else None))]) as Hd.
  { rewrite trace_splitBody, Ht by assumption.
    destruct (Z.eqb_spec (Type_ (headerAt o b)) NLMSG_ERROR) as [e | n].
    - destruct Hs as [Hs | [Hc Hz]]; [contradiction |].
      rewrite deliver_error, Hf by assumption.
      destruct (Z.leb_spec 4 (cap (afterHeader b))); [| lia].
      now destruct (Z.eqb_spec (codeAt o (afterHeader b)) 0).
    - now rewrite deliver_plain, Hf. }
  assert (exists fuel, List.length (elems b) = S fuel) as [fuel Hfuel]
    by (unfold len, NLMSG_HDRLEN in Hb; destruct (List.length (elems b));
        [lia | eauto]).
  unfold split. rewrite splitLoop_round by assumption.
  rewrite trace_bind, result_bind, result_splitBody, Hr, Hd, Hl, Hfuel
    by assumption.
  destruct (Z.leb_spec (nlmAlignOf (len b)) (len b)) as [Ha | Ha].
  - rewrite splitLoop_short.
    + split; [reflexivity | intros _; reflexivity].
    + pose proof (nlmAlignOf_bounds (len b)).
      unfold dropFront, len, NLMSG_HDRLEN in *. cbn [elems].
      rewrite length_skipn. lia.
  - split; [reflexivity |].
    intros Hm. rewrite nlmAlignOf_aligned in Ha by assumption. lia.
Qed.

Lemma C3_witness :
  trace (split LittleEndian frame20) =
    [Callback (RawEventTypeCb 1300 "ABCD" None)] /\
  (len frame20 mod 4 = 0 -> result (split LittleEndian frame20) = Ok tt).
Proof.
  refine (C3_single_frame_whole_text LittleEndian frame20 _ _ _).
  - vm_compute. discriminate.
  - vm_compute. reflexivity.
  - left. vm_compute. discriminate.
Defined.

(** ** Reading the code of an error frame *)

(** C5, as stated, makes the read of the code panic whenever the
    body of the error frame has fewer than four bytes. In the splitting
    loop the read is made on the whole rest of the buffer: the bare error
    header of [bareError_then_frame] has no body, the four bytes read are
    the length field of the next header, and the callback gets the
    code 20 without any panic. *)
Lemma C5_counterexample :
  ~ (forall (o : ByteOrder) (b : slice),
        NLMSG_HDRLEN <= Len (headerAt o b) <= len b ->
        Type_ (headerAt o b) = NLMSG_ERROR ->
        Len (headerAt o b) - NLMSG_HDRLEN < 4 ->
        result (splitBody o None b) = Panic).
Proof.
  intros H. specialize (H LittleEndian bareError_then_frame).
  assert (splitBody LittleEndian None bareError_then_frame =
          ([Callback (RawEventTypeCb 2 "" (Some (ErrReceiving 20)))],
           Ok (Next (exact (hdrLE 20 AUDIT_SYSCALL ++ [65; 66; 67; 68]))))) as E
    by (vm_compute; reflexivity).
  rewrite E in H. cbn [result snd] in H.
  discriminate H; vm_compute; try reflexivity. split; discriminate.
Qed.

(** The same holds of a message of [Receive] whose [Data] is an empty
    window on a larger array, as a window cut out of a read buffer is. *)
Example errorCode_reads_past_the_body :
  @errorCode LittleEndian unit (mkSlice [] (bytes [20; 0; 0; 0])) = ret 20.
Proof. vm_compute. reflexivity. Qed.

(** C5, amended. The read of the code has no guard on the length. It
    panics exactly when fewer than four bytes lie between the start of
    the slice and its capacity. When the slice has four bytes or more, the
    code is that of its first four bytes; when it has fewer and its
    capacity is its length, the read panics. All four receivers read the
    code this way, and panic with it: the two loops over the messages of
    [Receive] on [msg.Data], the splitting loop on the rest of the buffer
    behind the header. *)
Theorem C5_error_code_bounds (E : Type) (o : ByteOrder) (d : slice) :
  (result (@errorCode o E d) = Panic <-> cap d < 4) /\
  (4 <= len d ->
   @errorCode o E d = ret (int32_of_uint32 (uintOf o (firstn 4 (elems d))))) /\
  (len d < 4 -> spare d = [] -> @errorCode o E d = panic) /\
  (cap d < 4 ->
   (forall parse h,
       Type_ h = NLMSG_ERROR -> eventOfMessage o parse (mkMsg h d) = panic) /\
   (forall names h,
       Type_ h = NLMSG_ERROR -> rawEventOfMessage o names (mkMsg h d) = panic) /\
   (forall h n, Type_ h = NLMSG_ERROR -> deliver o h d n = panic)).
Proof.
  split; [| split; [| split]].
  - rewrite errorCode_spec.
    destruct (Z.leb_spec 4 (cap d)); cbn [result snd ret panic];
      split; intros; try discriminate; try reflexivity; lia.
  - intros H. pose proof (len_le_cap d). rewrite errorCode_spec.
    destruct (Z.leb_spec 4 (cap d)); [| lia]. now rewrite codeAt_elems.
  - intros H Hs. rewrite errorCode_spec.
    destruct (Z.leb_spec 4 (cap d)) as [Hc | Hc]; [| reflexivity].
    unfold cap, len in *. rewrite Hs in Hc. cbn [List.length] in Hc. lia.
  - intros H.
    assert (forall E', @errorCode o E' d = panic) as Hp.
    { intros E'. rewrite errorCode_spec.
      now destruct (Z.leb_spec 4 (cap d)); [lia |]. }
    split; [| split].
    + intros parse h Ht. unfold eventOfMessage. cbn [Header Data].
      now rewrite Ht, Z.eqb_refl, Hp.
    + intros names h Ht. unfold rawEventOfMessage. cbn [Header Data].
      now rewrite Ht, Z.eqb_refl, Hp.
    + intros h n Ht. unfold deliver. now rewrite Ht, Z.eqb_refl, Hp.
Qed.

Example bareError_panics : split LittleEndian bareError = ([], Panic).
Proof. vm_compute. reflexivity. Qed.

(** ** Error frames *)

(** In [GetAuditEvents] and [GetAuditMessages] an error frame whose code
    can be read gives no callback invocation for the code 0 and one, with
    the code, for any other. *)
Lemma eventOfMessage_error (o : ByteOrder) parse (msg : NetlinkMessage) :
  Type_ (Header msg) = NLMSG_ERROR -> 4 <= cap (Data msg) ->
  eventOfMessage o parse msg =
  if codeAt o (Data msg) =? 0 then ret tt
  else cb (EventCb None (Some (ErrReceiving (codeAt o (Data msg))))).
Proof.
  intros Ht Hc. unfold eventOfMessage.
  rewrite Ht, Z.eqb_refl, errorCode_spec.
  destruct (Z.leb_spec 4 (cap (Data msg))); [| lia].
  rewrite bind_ret. now destruct (codeAt o (Data msg) =? 0).
Qed.

(** In [GetRawAuditMessages] as well, in either arm of the length test. *)
Lemma deliver_error_calls (o : ByteOrder) (h : NlMsghdr) (b : slice) (n : Z) :
  Type_ h = NLMSG_ERROR -> 4 <= cap b -> 0 <= n <= len b ->
  calls (trace (deliver o h b n)) =
  if codeAt o b =? 0 then []
  else [RawEventTypeCb NLMSG_ERROR
          (string_of_list_byte (firstn (Z.to_nat n) (elems b)))
          (Some (ErrReceiving (codeAt o b)))].
Proof.
  intros Ht Hc Hn. rewrite deliver_error by assumption.
  destruct (Z.leb_spec 4 (cap b)); [| lia].
  destruct (codeAt o b =? 0); [reflexivity | now rewrite Ht].
Qed.

(** C1. What [GetRawAuditEvents] does with an error frame whose code can
    be read: the call of [cb] at the end of the loop body is outside the
    test of the frame type, so the callback is invoked once more than in
    the other three receivers, with an empty text and a nil error: once
    for the code 0, twice for any other code. *)
Theorem C1_GetRawAuditEvents_error_frame
        (o : ByteOrder) (names : Z -> string) (msg : NetlinkMessage) :
  Type_ (Header msg) = NLMSG_ERROR -> 4 <= cap (Data msg) ->
  rawEventOfMessage o names msg =
  ((if codeAt o (Data msg) =? 0 then []
    else [Callback (RawEventCb EmptyString
                      (Some (ErrReceiving (codeAt o (Data msg)))))])
   ++ [Callback (RawEventCb EmptyString None)],
   Ok tt).
Proof.
  intros Ht Hc. unfold rawEventOfMessage.
  rewrite Ht, Z.eqb_refl, errorCode_spec.
  destruct (Z.leb_spec 4 (cap (Data msg))); [| lia].
  rewrite bind_ret. now destruct (codeAt o (Data msg) =? 0).
Qed.

Lemma C1_witness :
  rawEventOfMessage LittleEndian placeholder ackMessage =
  ([Callback (RawEventCb EmptyString None)], Ok tt).
Proof.
  apply (C1_GetRawAuditEvents_error_frame LittleEndian placeholder ackMessage).
  - reflexivity.
  - vm_compute. discriminate.
Defined.

Example GetRawAuditEvents_calls_twice :
  rawEventOfMessage LittleEndian placeholder eioMessage =
  ([Callback (RawEventCb EmptyString (Some (ErrReceiving (-5))));
    Callback (RawEventCb EmptyString None)], Ok tt).
Proof. vm_compute. reflexivity. Qed.

Example GetAuditEvents_ack_is_silent parse :
  eventOfMessage LittleEndian parse ackMessage = ([], Ok tt).
Proof. reflexivity. Qed.

(** ** Message types without a name *)





Example GetAuditEvents_unknown_message_type :
  eventOfMessage LittleEndian (acceptingParser placeholder) namelessMessage =
  ([Callback (EventCb None (Some (ErrUnknownMessageType 9999)))], Ok tt) /\
  Error (ErrUnknownMessageType 9999) =
    "NewAuditEvent failed: unknown message type 9999"%string.
Proof. split; vm_compute; reflexivity. Qed.

(** The test of [NewAuditEvent] looks at the [Type] of the parsed event,
    not at the name of the message type. A parser that sets [Type] to the
    name less its first six characters, as [GetRawAuditEvents] writes the
    type, gets its event through for a type without a name. *)
Example NewAuditEvent_misses_a_shortened_name :
  NewAuditEvent shorteningParser namelessMessage =
  (Some (mkEvent "2" "1" "onstant(9999)" [] "ABCD"), None).
Proof. vm_compute. reflexivity. Qed.

(** ** The driver loops *)

(** C7. In each of the four receivers, an iteration whose read fails does
    nothing but the read: no callback is invoked, the error goes nowhere,
    and the loop goes on with its next iteration (for the two receivers
    with a done channel, when the [select] did not find it signalled). *)
Theorem C7_read_error_is_skipped
        (o : ByteOrder) (names : Z -> string)
        (parse : string -> Z -> bool -> AuditEvent + error)
        (s : Netlink) (done : nat -> bool) (fuel n : nat) (e : error) :
  (Receive s n = inr e ->
   GetAuditEvents o parse (S fuel) s n =
     emit Read ;;; GetAuditEvents o parse fuel s (S n) /\
   GetRawAuditEvents o names (S fuel) s n =
     emit Read ;;; GetRawAuditEvents o names fuel s (S n) /\
   (done n = false ->
    GetAuditMessages o parse (S fuel) s done n =
      emit Read ;;; GetAuditMessages o parse fuel s done (S n))) /\
  (ReceiveNoParse s n = inr e -> done n = false ->
   GetRawAuditMessages o (S fuel) s done n =
     emit Read ;;; GetRawAuditMessages o fuel s done (S n)).
Proof.
  split.
  - intros Hr. split; [| split].
    + cbn [GetAuditEvents]. unfold receive. rewrite Hr.
      now destruct (GetAuditEvents o parse fuel s (S n)).
    + cbn [GetRawAuditEvents]. unfold receive. rewrite Hr.
      now destruct (GetRawAuditEvents o names fuel s (S n)).
    + intros Hd. cbn [GetAuditMessages]. unfold receive. rewrite Hr, Hd.
      now destruct (GetAuditMessages o parse fuel s done (S n)).
  - intros Hr Hd. cbn [GetRawAuditMessages]. unfold receiveNoParse.
    rewrite Hr, Hd.
    now destruct (GetRawAuditMessages o fuel s done (S n)).
Qed.

Example GetAuditEvents_keeps_reading parse :
  GetAuditEvents LittleEndian parse 3 brokenTransport 0 =
  ([Read; Read; Read], Running).
Proof. reflexivity. Qed.

(** *** Cancellation *)

Lemma GetAuditMessages_cancellable (o : ByteOrder) parse s fuel done n :
  GetAuditMessages o parse fuel s done n =
  cancellable
    (fun n => r <- receive s n ;;
              match r with
              | inl msgs => forEach (eventOfMessage o parse) msgs
              | inr _ => ret tt
              end)
    fuel done n.
Proof.
  revert n. induction fuel as [| fuel IH]; intros n; [reflexivity |].
  cbn [GetAuditMessages cancellable]. destruct (done n); [reflexivity |].
  rewrite bind_assoc. now rewrite IH.
Qed.

Lemma GetRawAuditMessages_cancellable (o : ByteOrder) s fuel done n :
  GetRawAuditMessages o fuel s done n =
  cancellable
    (fun n => r <- receiveNoParse s n ;;
              match r with
              | inl b => split o b
              | inr _ => ret tt
              end)
    fuel done n.
Proof.
  revert n. induction fuel as [| fuel IH]; intros n; [reflexivity |].
  cbn [GetRawAuditMessages cancellable]. destruct (done n); [reflexivity |].
  rewrite bind_assoc. now rewrite IH.
Qed.

Lemma reads_bind {C A B} (m : M (event C) A) (k : A -> M (event C) B) :
  reads (trace (bind m k)) =
  (reads (trace m) +
   match result m with Ok a => reads (trace (k a)) | _ => 0 end)%nat.
Proof. rewrite trace_bind, reads_app. now destruct (result m). Qed.

Lemma dispatches_ret {C A} (a : A) : dispatches (@ret (event C) A a).
Proof. split; [reflexivity | discriminate]. Qed.

Lemma dispatches_panic {C A} : dispatches (@panic (event C) A).
Proof. split; [reflexivity | discriminate]. Qed.

Lemma dispatches_cb {C} (c : C) : dispatches (cb c).
Proof. split; [reflexivity | discriminate]. Qed.

Lemma dispatches_checked {C A} (x : option A) : dispatches (@checked (event C) A x).
Proof. destruct x; [apply dispatches_ret | apply dispatches_panic]. Qed.

Lemma dispatches_bind {C A B} (m : M (event C) A) (k : A -> M (event C) B) :
  dispatches m -> (forall a, dispatches (k a)) -> dispatches (bind m k).
Proof.
  intros [Hm1 Hm2] Hk. split.
  - rewrite reads_bind, Hm1. destruct (result m); [apply Hk | reflexivity ..].
  - rewrite result_bind.
    destruct (result m); [apply Hk | discriminate | contradiction].
Qed.

Create HintDb dispatch.
#[local] Hint Resolve dispatches_ret dispatches_panic dispatches_cb
  dispatches_checked : dispatch.

Lemma dispatches_errorCode {C} (o : ByteOrder) (d : slice) :
  dispatches (@errorCode o (event C) d).
Proof. rewrite errorCode_spec. destruct (4 <=? cap d); auto with dispatch. Qed.

Lemma dispatches_forEach {C A} (f : A -> M (event C) unit) (l : list A) :
  (forall x, dispatches (f x)) -> dispatches (forEach f l).
Proof.
  intros Hf. induction l as [| x l IH]; cbn [forEach];
    [apply dispatches_ret | now apply dispatches_bind].
Qed.

Lemma dispatches_eventOfMessage (o : ByteOrder) parse (msg : NetlinkMessage) :
  dispatches (eventOfMessage o parse msg).
Proof.
  unfold eventOfMessage. destruct (_ =? _).
  - apply dispatches_bind; [apply dispatches_errorCode |].
    intros v. destruct (negb _); auto with dispatch.
  - destruct (NewAuditEvent parse msg). apply dispatches_cb.
Qed.

Lemma dispatches_deliver (o : ByteOrder) (h : NlMsghdr) (b : slice) (n : Z) :
  dispatches (deliver o h b n).
Proof.
  unfold deliver. destruct (_ =? _).
  - apply dispatches_bind; [apply dispatches_errorCode |].
    intros v. destruct (negb _); [| apply dispatches_ret].
    apply dispatches_bind; auto with dispatch.
  - apply dispatches_bind; auto with dispatch.
Qed.

Lemma dispatches_splitBody (o : ByteOrder) (err : option error) (b : slice) :
  dispatches (splitBody o err b).
Proof.
  unfold splitBody. cbv zeta. destruct (_ || _); [apply dispatches_ret |].
  apply dispatches_bind; [apply dispatches_checked |]. intros b1.
  destruct err; [apply dispatches_ret |].
  apply dispatches_bind.
  - destruct (_ || _); apply dispatches_deliver.
  - intros _. apply dispatches_bind; auto with dispatch.
Qed.

Lemma reads_splitLoop (o : ByteOrder) (fuel : nat) (err : option error) (b : slice) :
  reads (trace (splitLoop o fuel err b)) = O.
Proof.
  revert b. induction fuel as [| fuel IH]; intros b; [reflexivity |].
  cbn [splitLoop]. destruct (_ <=? _); [| reflexivity].
  rewrite reads_bind. rewrite (proj1 (dispatches_splitBody o err b)).
  destruct (result _) as [[| b'] | |]; try reflexivity. apply IH.
Qed.

Lemma dispatches_split (o : ByteOrder) (b : slice) : dispatches (split o b).
Proof. split; [apply reads_splitLoop | apply split_finishes]. Qed.

Section Cancellable.

Context {C : Type} (cycle : nat -> M (event C) unit).
Hypothesis one_read :
  forall n, reads (trace (cycle n)) = 1%nat /\ result (cycle n) <> Running.


End Cancellable.

(** One cycle of either receiver makes exactly one read and ends. *)
Lemma cycle_of_GetAuditMessages (o : ByteOrder) parse (s : Netlink) (n : nat) :
  let cycle :=
    r <- @receive EventCall s n ;;
    match r with
    | inl msgs => forEach (eventOfMessage o parse) msgs
    | inr _ => ret tt
    end in
  reads (trace cycle) = 1%nat /\ result cycle <> Running.
Proof.
  unfold receive. cbv zeta. rewrite bind_assoc, bind_emit.
  cbn [trace result fst snd reads]. rewrite bind_ret.
  assert (dispatches (match Receive s n with
                      | inl msgs => forEach (eventOfMessage o parse) msgs
                      | inr _ => ret tt
                      end)) as [H1 H2].
  { destruct (Receive s n);
      [apply dispatches_forEach, dispatches_eventOfMessage | apply dispatches_ret]. }
  now rewrite H1.
Qed.

Lemma cycle_of_GetRawAuditMessages (o : ByteOrder) (s : Netlink) (n : nat) :
  let cycle :=
    r <- @receiveNoParse RawEventTypeCall s n ;;
    match r with
    | inl b => split o b
    | inr _ => ret tt
    end in
  reads (trace cycle) = 1%nat /\ result cycle <> Running.
Proof.
  unfold receiveNoParse. cbv zeta. rewrite bind_assoc, bind_emit.
  cbn [trace result fst snd reads]. rewrite bind_ret.
  assert (dispatches (match ReceiveNoParse s n with
                      | inl b => split o b
                      | inr _ => ret tt
                      end)) as [H1 H2].
  { destruct (ReceiveNoParse s n);
      [apply dispatches_split | apply dispatches_ret]. }
  now rewrite H1.
Qed.



Example GetRawAuditMessages_returns_after_the_signal :
  GetRawAuditMessages LittleEndian 5 steadyTransport doneDuringSecondCycle 0 =
  ([Read; Callback (RawEventTypeCb 1300 "ABCD" None);
    Read; Callback (RawEventTypeCb 1300 "ABCD" None)], Ok tt).
Proof. vm_compute. reflexivity. Qed.

(** * Further properties of the receivers *)

(** ** Bytes and integers *)

Lemma byteZ_range (x : byte) : 0 <= byteZ x < 256.
Proof. unfold byteZ. pose proof (Byte.to_N_bounded x). lia. Qed.

Lemma byteZ_zero (x : byte) : byteZ x = 0 <-> x = x00.
Proof.
  split; [| now intros ->].
  intros H. unfold byteZ in H.
  assert (Byte.to_N x = 0%N) as H0 by lia.
  pose proof (Byte.of_to_N x) as E. rewrite H0 in E. cbn in E. congruence.
Qed.

Lemma lor_byte_shift (a b : Z) :
  0 <= a < 256 -> Z.lor a (Z.shiftl b 8) = a + 256 * b.
Proof.
  intros Ha.
  assert (Z.land a (Z.shiftl b 8) = 0) as H0.
  { apply Z.bits_inj'. intros n Hn. rewrite Z.land_spec, Z.bits_0.
    destruct (Z.lt_ge_cases n 8) as [Hl | Hl].
    - rewrite Z.shiftl_spec_low by assumption. apply andb_false_r.
    - rewrite <- (Z.mod_small a (2 ^ 8)) by (change (2 ^ 8) with 256; lia).
      rewrite Z.mod_pow2_bits_high by lia. reflexivity. }
  pose proof (Z.add_lor_land a (Z.shiftl b 8)) as H.
  rewrite H0, Z.add_0_r in H. rewrite H, Z.shiftl_mul_pow2 by lia.
  change (2 ^ 8) with 256. lia.
Qed.

Lemma le_value_range (l : list byte) :
  0 <= le_value l < 2 ^ (8 * Z.of_nat (List.length l)).
Proof.
  induction l as [| x l IH]; [cbn; lia |].
  cbn [le_value List.length]. pose proof (byteZ_range x).
  rewrite lor_byte_shift by assumption.
  replace (8 * Z.of_nat (S (List.length l)))
    with (8 + 8 * Z.of_nat (List.length l)) by lia.
  rewrite Z.pow_add_r by lia. change (2 ^ 8) with 256. nia.
Qed.

Lemma le_value_zero (l : list byte) :
  le_value l = 0 <-> Forall (eq x00) l.
Proof.
  induction l as [| x l IH]; [cbn; split; auto |].
  cbn [le_value]. rewrite Z.lor_eq_0_iff, Z.shiftl_eq_0_iff, byteZ_zero, IH by lia.
  split.
  - intros [-> H]. now constructor.
  - intros H. inversion H; subst. auto.
Qed.

Lemma uintOf_range (o : ByteOrder) (l : list byte) (n : nat) :
  (List.length l <= n)%nat -> 0 <= uintOf o l < 2 ^ (8 * Z.of_nat n).
Proof.
  intros Hn.
  assert (0 <= uintOf o l < 2 ^ (8 * Z.of_nat (List.length l))) as H.
  { destruct o; cbn [uintOf]; [apply le_value_range |].
    rewrite <- length_rev. apply le_value_range. }
  assert (2 ^ (8 * Z.of_nat (List.length l)) <= 2 ^ (8 * Z.of_nat n))
    by (apply Z.pow_le_mono_r; lia).
  lia.
Qed.

Lemma uintOf_zero (o : ByteOrder) (l : list byte) :
  uintOf o l = 0 <-> Forall (eq x00) l.
Proof.
  destruct o; cbn [uintOf]; rewrite le_value_zero; [reflexivity |].
  rewrite !Forall_forall. split; intros H x Hx; apply H;
    [rewrite <- in_rev | rewrite in_rev]; exact Hx.
Qed.

(** X2. The error code is a signed 32-bit value, and it is 0, the
    acknowledgement that is kept from the callback, exactly when the four
    bytes read are all zero, in either byte order. *)
Theorem errorCode_zero_iff (E : Type) (o : ByteOrder) (d : slice) :
  (@errorCode o E d = ret 0 <->
   firstn 4 (elems d ++ spare d) = [x00; x00; x00; x00]) /\
  (forall v, @errorCode o E d = ret v -> - 2 ^ 31 <= v < 2 ^ 31).
Proof.
  rewrite errorCode_spec. unfold codeAt, int32_of_uint32.
  set (l := firstn 4 (elems d ++ spare d)).
  assert (0 <= uintOf o l < 2 ^ 32) as Hr
    by (apply (uintOf_range o _ 4); subst l; rewrite length_firstn; lia).
  assert ((if uintOf o l <? 2 ^ 31 then uintOf o l else uintOf o l - 2 ^ 32) = 0
          <-> uintOf o l = 0) as Hz
    by (destruct (Z.ltb_spec (uintOf o l) (2 ^ 31)); lia).
  assert (List.length l = Nat.min 4 (List.length (elems d) + List.length (spare d)))
    as Hl by (subst l; now rewrite length_firstn, length_app).
  destruct (Z.leb_spec 4 (cap d)) as [Hc | Hc]; unfold cap in Hc.
  - rewrite Nat.min_l in Hl by lia. clearbody l. split.
    + split.
      * intros H. injection H as H. apply Hz, uintOf_zero in H.
        destruct l as [| a [| b [| c [| e [| ? ?]]]]]; try discriminate Hl.
        repeat match goal with
               | H : Forall _ (_ :: _) |- _ => inversion H; subst; clear H
               end.
        reflexivity.
      * intros ->. now destruct o.
    + assert (- 2 ^ 31 <=
              (if uintOf o l <? 2 ^ 31 then uintOf o l else uintOf o l - 2 ^ 32)
              < 2 ^ 31) as Hv.
      { change (2 ^ 32) with (2 * 2 ^ 31) in *.
        destruct (Z.ltb_spec (uintOf o l) (2 ^ 31)); lia. }
      intros v H. injection H as <-. exact Hv.
  - split; [| discriminate]. split; [discriminate |].
    intros H. rewrite H in Hl. cbn [List.length] in Hl. lia.
Qed.

(** ** A buffer of several frames *)

Lemma field_app (o : ByteOrder) (f r : list byte) (off n : nat) :
  (off + n <= List.length f)%nat -> field o (f ++ r) off n = field o f off n.
Proof.
  intros H. unfold field. f_equal.
  rewrite skipn_app, firstn_app, length_skipn.
  replace (n - (List.length f - off))%nat with O by lia.
  now rewrite firstn_O, app_nil_r.
Qed.

(** The header is read off the first sixteen bytes alone. *)
Lemma headerAt_app (o : ByteOrder) (f r sp : list byte) :
  (16 <= List.length f)%nat ->
  headerAt o (mkSlice (f ++ r) sp) = headerAt o (mkSlice f []).
Proof.
  intros H. unfold headerAt. cbn [elems].
  now rewrite !field_app by lia.
Qed.

Lemma wellFormedFrame_length (o : ByteOrder) (f : list byte) :
  wellFormedFrame o f -> (20 <= List.length f)%nat.
Proof.
  intros (H1 & H2 & _). cbv zeta in *.
  pose proof (nlmAlignOf_bounds (Len (headerAt o (mkSlice f [])))) as Hb.
  rewrite nlmAlignOf_div in *. unfold NLMSG_HDRLEN in *. lia.
Qed.

(** One round on a buffer that starts with a frame as above, where the
    rest of the buffer behind the header is not exactly [h.Len] long. *)
Lemma splitLoop_frame (o : ByteOrder) (fuel : nat) (f rest sp : list byte) :
  wellFormedFrame o f ->
  Z.of_nat (List.length f - 16 + List.length rest) <>
    Len (headerAt o (mkSlice f [])) ->
  splitLoop o (S fuel) None (mkSlice (f ++ rest) sp) =
  (map Callback (frameCalls o f), Ok tt) ;;;
  splitLoop o fuel None (mkSlice rest sp).
Proof.
  intros Hw Hq. pose proof (wellFormedFrame_length o f Hw) as Hlen.
  destruct Hw as (H1 & H2 & H3). cbv zeta in *.
  set (b := mkSlice (f ++ rest) sp).
  assert (headerAt o b = headerAt o (mkSlice f [])) as Hh
    by (apply headerAt_app; lia).
  set (h := headerAt o (mkSlice f [])) in *.
  pose proof (nlmAlignOf_bounds (Len h)) as Hb.
  assert (len b = Z.of_nat (List.length f + List.length rest)) as Hlb
    by (unfold len, b; cbn [elems]; now rewrite length_app).
  assert (NLMSG_HDRLEN <= Len (headerAt o b) <= len b) as Hv
    by (rewrite Hh, Hlb; unfold NLMSG_HDRLEN in *; lia).
  assert (elems (afterHeader b) = skipn 16 f ++ rest) as He.
  { unfold afterHeader, b. cbn [elems]. rewrite skipn_app.
    replace (16 - List.length f)%nat with O by lia. reflexivity. }
  assert (textBound o b = Len h - NLMSG_HDRLEN) as Ht.
  { unfold textBound. cbv zeta. rewrite Hh. fold h.
    destruct (Z.eqb_spec (len (afterHeader b)) (Len h)) as [e | _];
      [| reflexivity].
    exfalso. apply Hq. rewrite <- e. unfold len. rewrite He, length_app, length_skipn.
    lia. }
  assert (firstn (Z.to_nat (Len h - NLMSG_HDRLEN)) (elems (afterHeader b)) =
          firstn (Z.to_nat (Len h - NLMSG_HDRLEN)) (skipn 16 f)) as Hf.
  { rewrite He, firstn_app, length_skipn.
    replace (Z.to_nat (Len h - NLMSG_HDRLEN) - (List.length f - 16))%nat with O
      by (unfold NLMSG_HDRLEN in *; lia).
    now rewrite firstn_O, app_nil_r. }
  assert (deliver o h (afterHeader b) (Len h - NLMSG_HDRLEN) =
          (map Callback (frameCalls o f), Ok tt)) as Hd.
  { assert (0 <= Len h - NLMSG_HDRLEN <= len (afterHeader b)) as Hn
      by (rewrite len_afterHeader; unfold NLMSG_HDRLEN in *; lia).
    unfold frameCalls. cbv zeta. fold h.
    destruct (Z.eqb_spec (Type_ h) NLMSG_ERROR) as [e | n].
    - specialize (H3 e).
      rewrite deliver_error, Hf by assumption.
      assert (4 <= cap (afterHeader b)) as Hc
        by (pose proof (len_le_cap (afterHeader b)); unfold NLMSG_HDRLEN in *; lia).
      destruct (Z.leb_spec 4 (cap (afterHeader b))); [| lia].
      assert (codeAt o (afterHeader b) =
              int32_of_uint32 (uintOf o (firstn 4 (skipn 16 f)))) as ->.
      { rewrite codeAt_elems by (unfold NLMSG_HDRLEN in *; lia).
        rewrite He, firstn_app, length_skipn.
        replace (4 - (List.length f - 16))%nat with O by lia.
        now rewrite firstn_O, app_nil_r. }
      now destruct (_ =? 0).
    - now rewrite deliver_plain, Hf. }
  rewrite splitLoop_round by lia.
  rewrite splitBody_valid, Ht, Hh, Hd by assumption. fold h.
  rewrite sliceFrom_afterHeader by lia.
  destruct (Z.leb_spec (nlmAlignOf (Len h)) (len b)); [| lia].
  cbn [checked]. rewrite !bind_assoc, !bind_ret.
  assert (dropFront b (nlmAlignOf (Len h)) = mkSlice rest sp) as ->.
  { unfold dropFront, b. cbn [elems spare]. rewrite <- H2, Nat2Z.id.
    now rewrite skipn_app, Nat.sub_diag, skipn_all. }
  reflexivity.
Qed.

Lemma splitLoop_frames (o : ByteOrder) (fs : list (list byte)) :
  forall (fuel : nat) (tail sp : list byte),
    Forall (wellFormedFrame o) fs ->
    (List.length tail < 13)%nat ->
    (List.length fs < fuel)%nat ->
    splitLoop o fuel None (mkSlice (List.concat fs ++ tail) sp) =
    (map Callback (flat_map (frameCalls o) fs), Ok tt).
Proof.
  induction fs as [| f fs IH]; intros fuel tail sp Hw Ht Hf.
  - destruct fuel as [| fuel]; [cbn in Hf; lia |].
    cbn [List.concat app flat_map map]. apply splitLoop_short.
    unfold len, NLMSG_HDRLEN. cbn [elems]. lia.
  - destruct fuel as [| fuel]; [cbn in Hf; lia |].
    inversion Hw as [| ? ? Hw1 Hw2]; subst.
    cbn [List.concat flat_map]. rewrite <- app_assoc.
    rewrite splitLoop_frame; [| assumption |].
    + rewrite IH by (try assumption; cbn [List.length] in Hf; lia).
      cbn. now rewrite map_app.
    + pose proof (wellFormedFrame_length o f Hw1) as Hl.
      destruct Hw1 as (H1 & H2 & _). cbv zeta in *.
      pose proof (nlmAlignOf_bounds (Len (headerAt o (mkSlice f [])))) as Hb.
      rewrite length_app.
      destruct fs as [| g fs]; cbn [List.concat List.length].
      * unfold NLMSG_HDRLEN in *. lia.
      * inversion Hw2 as [| ? ? Hg _]; subst.
        pose proof (wellFormedFrame_length o g Hg).
        rewrite length_app. unfold NLMSG_HDRLEN in *. lia.
Qed.

Lemma split_frames (o : ByteOrder) (fs : list (list byte))
      (tail sp : list byte) :
  Forall (wellFormedFrame o) fs ->
  (List.length tail < 13)%nat ->
  split o (mkSlice (List.concat fs ++ tail) sp) =
  (map Callback (flat_map (frameCalls o) fs), Ok tt).
Proof.
  intros Hw Ht. unfold split. apply splitLoop_frames; try assumption.
  cbn [elems]. rewrite length_app.
  assert (List.length fs <= List.length (List.concat fs))%nat; [| lia].
  clear Ht. induction Hw as [| f fs Hf _ IH]; [cbn; lia |].
  cbn [List.concat List.length]. rewrite length_app.
  pose proof (wellFormedFrame_length o f Hf). lia.
Qed.

(** X3. A buffer made of frames as the transport lays them out (each with
    a text that is not empty, padded to the alignment, an error frame with
    its code), with fewer than 13 stray bytes behind the last: the loop of
    [GetRawAuditMessages] hands the frames to the callback in the order of
    the buffer, each with its type and the text between its header and
    [h.Len], leaves out the acknowledgements, drops the stray bytes, and
    returns. *)
Theorem split_of_frames (o : ByteOrder) (fs : list (list byte))
        (tail sp : list byte) :
  Forall (wellFormedFrame o) fs ->
  (List.length tail < 13)%nat ->
  split o (mkSlice (List.concat fs ++ tail) sp) =
  (map Callback (flat_map (frameCalls o) fs), Ok tt).
Proof. apply split_frames. Qed.

Lemma split_of_frames_witness :
  split LittleEndian (mkSlice (List.concat threeFrames ++ bytes [1; 2; 3]) []) =
  ([Callback (RawEventTypeCb 1300 "ABCD" None);
    Callback (RawEventTypeCb 1300 "EF" None)], Ok tt).
Proof.
  refine (split_of_frames LittleEndian threeFrames (bytes [1; 2; 3]) [] _ _).
  - repeat constructor; vm_compute; try discriminate; try reflexivity.
  - cbn. lia.
Defined.

(** ** What the callback is never given *)

Lemma allCalls_nil {C} (P : C -> Prop) : allCalls P [].
Proof. intros c []. Qed.

Lemma allCalls_cb {C} (P : C -> Prop) (c : C) : P c -> allCalls P (trace (cb c)).
Proof. intros H c' [E | []]. now inversion E; subst. Qed.

Lemma allCalls_app {C} (P : C -> Prop) (t u : list (event C)) :
  allCalls P t -> allCalls P u -> allCalls P (t ++ u).
Proof. intros Ht Hu c Hc. apply in_app_or in Hc as [Hc | Hc]; auto. Qed.

Lemma allCalls_bind {C A B} (P : C -> Prop)
      (m : M (event C) A) (k : A -> M (event C) B) :
  allCalls P (trace m) -> (forall a, allCalls P (trace (k a))) ->
  allCalls P (trace (bind m k)).
Proof.
  intros Hm Hk. rewrite trace_bind. apply allCalls_app; [assumption |].
  destruct (result m); [apply Hk | apply allCalls_nil ..].
Qed.

Lemma allCalls_checked {C A} (P : C -> Prop) (x : option A) :
  allCalls P (trace (@checked (event C) A x)).
Proof. destruct x; apply allCalls_nil. Qed.

Lemma allCalls_errorCode {C} (P : C -> Prop) (o : ByteOrder) (d : slice) :
  allCalls P (trace (@errorCode o (event C) d)).
Proof. rewrite errorCode_spec. destruct (4 <=? cap d); apply allCalls_nil. Qed.

Lemma allCalls_forEach {C A} (P : C -> Prop) (f : A -> M (event C) unit)
      (l : list A) :
  (forall x, allCalls P (trace (f x))) -> allCalls P (trace (forEach f l)).
Proof.
  intros Hf. induction l as [| x l IH]; cbn [forEach];
    [apply allCalls_nil | now apply allCalls_bind].
Qed.

Lemma deliver_consistent (o : ByteOrder) (h : NlMsghdr) (b : slice) (n : Z) :
  allCalls rawTypeCallConsistent (trace (deliver o h b n)).
Proof.
  unfold deliver. destruct (Z.eqb_spec (Type_ h) NLMSG_ERROR) as [e | ne].
  - apply allCalls_bind; [apply allCalls_errorCode |]. intros v.
    destruct (Z.eqb_spec v 0) as [| nz]; cbn [negb]; [apply allCalls_nil |].
    apply allCalls_bind; [apply allCalls_checked |]. intros text.
    apply allCalls_cb. cbn. eauto.
  - apply allCalls_bind; [apply allCalls_checked |]. intros text.
    now apply allCalls_cb.
Qed.

Lemma splitLoop_consistent (o : ByteOrder) (fuel : nat) (err : option error)
      (b : slice) :
  allCalls rawTypeCallConsistent (trace (splitLoop o fuel err b)).
Proof.
  revert b. induction fuel as [| fuel IH]; intros b; [apply allCalls_nil |].
  cbn [splitLoop]. destruct (_ <=? _); [| apply allCalls_nil].
  apply allCalls_bind.
  - unfold splitBody. cbv zeta. destruct (_ || _); [apply allCalls_nil |].
    apply allCalls_bind; [apply allCalls_checked |]. intros b1.
    destruct err; [apply allCalls_nil |].
    apply allCalls_bind.
    + destruct (_ || _); apply deliver_consistent.
    + intros _. apply allCalls_bind; [apply allCalls_checked |].
      intros b2. apply allCalls_nil.
  - intros [| b']; [apply allCalls_nil | apply IH].
Qed.

(** X4. Whatever the transport hands on and however long the receiver
    runs, every callback invocation of [GetRawAuditMessages] is consistent:
    a frame that is not an error frame comes with a nil error, an error
    frame with the error of its code, and the code is never 0. *)
Theorem GetRawAuditMessages_calls_consistent
        (o : ByteOrder) (s : Netlink) (done : nat -> bool) (fuel n : nat) :
  allCalls rawTypeCallConsistent (trace (GetRawAuditMessages o fuel s done n)).
Proof.
  revert n. induction fuel as [| fuel IH]; intros n; [apply allCalls_nil |].
  cbn [GetRawAuditMessages]. destruct (done n); [apply allCalls_nil |].
  apply allCalls_bind.
  - unfold receiveNoParse. intros c [E | []]. discriminate E.
  - intros [b | e]; (apply allCalls_bind; [| intros _; apply IH]).
    + apply splitLoop_consistent.
    + apply allCalls_nil.
Qed.

Lemma eventOfMessage_consistent (o : ByteOrder) parse (msg : NetlinkMessage) :
  allCalls eventCallConsistent (trace (eventOfMessage o parse msg)).
Proof.
  unfold eventOfMessage. destruct (_ =? _).
  - apply allCalls_bind; [apply allCalls_errorCode |]. intros v.
    destruct (negb _); [now apply allCalls_cb | apply allCalls_nil].
  - unfold NewAuditEvent. destruct (parse _ _ _) as [x | e].
    + destruct (String.eqb _ _); now apply allCalls_cb.
    + now apply allCalls_cb.
Qed.

(** X5. Every callback invocation of [GetAuditEvents] and of
    [GetAuditMessages] has an event and a nil error, or a nil event and an
    error: the callback never gets both, and never two nils. *)
Theorem parsed_calls_consistent
        (o : ByteOrder) (parse : string -> Z -> bool -> AuditEvent + error)
        (s : Netlink) (done : nat -> bool) (fuel n : nat) :
  allCalls eventCallConsistent (trace (GetAuditEvents o parse fuel s n)) /\
  allCalls eventCallConsistent (trace (GetAuditMessages o parse fuel s done n)).
Proof.
  assert (forall r : list NetlinkMessage + error,
             allCalls eventCallConsistent
               (trace (match r with
                       | inl msgs => forEach (eventOfMessage o parse) msgs
                       | inr _ => ret tt
                       end))) as Hd.
  { intros [msgs | e]; [| apply allCalls_nil].
    apply allCalls_forEach. intros msg. apply eventOfMessage_consistent. }
  assert (forall n, allCalls eventCallConsistent (trace (@receive EventCall s n)))
    as Hr by (intros k c [E | []]; discriminate E).
  split; revert n; induction fuel as [| fuel IH]; intros n.
  - apply allCalls_nil.
  - cbn [GetAuditEvents]. apply allCalls_bind; [apply Hr |]. intros r.
    apply allCalls_bind; [apply Hd | intros _; apply IH].
  - apply allCalls_nil.
  - cbn [GetAuditMessages]. destruct (done n); [apply allCalls_nil |].
    apply allCalls_bind; [apply Hr |]. intros r.
    apply allCalls_bind; [apply Hd | intros _; apply IH].
Qed.

(** ** How many callback invocations a buffer can give *)

Lemma deliver_at_most_one (o : ByteOrder) (h : NlMsghdr) (b : slice) (n : Z) :
  (List.length (trace (deliver o h b n)) <= 1)%nat.
Proof.
  unfold deliver. destruct (_ =? _).
  - rewrite errorCode_spec. destruct (4 <=? cap b); [| cbn; lia].
    rewrite bind_ret. destruct (negb _); [| cbn; lia].
    destruct (sliceTo b n); cbn; lia.
  - destruct (sliceTo b n); cbn; lia.
Qed.

Lemma splitLoop_calls_bound (o : ByteOrder) (fuel : nat) (b : slice) :
  16 * Z.of_nat (List.length (trace (splitLoop o fuel None b))) <= len b.
Proof.
  revert b. induction fuel as [| fuel IH]; intros b;
    [cbn; unfold len; lia |].
  destruct (Z.lt_ge_cases (len b) NLMSG_HDRLEN) as [Hs | Hl].
  { rewrite splitLoop_short by assumption. cbn. unfold len. lia. }
  destruct (Z.lt_ge_cases (Len (headerAt o b)) NLMSG_HDRLEN) as [H1 | H1];
    [rewrite splitLoop_invalid by auto; cbn; unfold len; lia |].
  destruct (Z.lt_ge_cases (len b) (Len (headerAt o b))) as [H2 | H2];
    [rewrite splitLoop_invalid by auto; cbn; unfold len; lia |].
  rewrite splitLoop_round, trace_bind, length_app, trace_splitBody,
    result_splitBody by lia.
  pose proof (deliver_at_most_one o (headerAt o b) (afterHeader b)
                (textBound o b)) as Hd.
  pose proof (nlmAlignOf_bounds (Len (headerAt o b))) as Hb.
  unfold NLMSG_HDRLEN in *.
  destruct (codeReadable _ _); [| cbn [List.length]; lia].
  destruct (Z.leb_spec (nlmAlignOf (Len (headerAt o b))) (len b)) as [Ha | Ha];
    [| cbn [List.length]; lia].
  specialize (IH (dropFront b (nlmAlignOf (Len (headerAt o b))))).
  assert (len (dropFront b (nlmAlignOf (Len (headerAt o b)))) =
          len b - nlmAlignOf (Len (headerAt o b))) as E.
  { unfold dropFront, len in *. cbn [elems]. rewrite length_skipn. lia. }
  lia.
Qed.

(** X6. One buffer gives at most one callback invocation for every
    sixteen bytes it has: [GetRawAuditMessages] never invokes the callback
    more often than headers fit into the read. *)
Theorem split_calls_bound (o : ByteOrder) (b : slice) :
  16 * Z.of_nat (List.length (trace (split o b))) <= len b /\
  (len b < NLMSG_HDRLEN -> split o b = ([], Ok tt)).
Proof.
  split; [apply splitLoop_calls_bound |].
  intros H. now apply splitLoop_short.
Qed.

(** ** The loops that have no exit *)

Lemma dispatches_rawEventOfMessage (o : ByteOrder) names (msg : NetlinkMessage) :
  dispatches (rawEventOfMessage o names msg).
Proof.
  unfold rawEventOfMessage.
  apply dispatches_bind; [| intros me; apply dispatches_cb].
  destruct (_ =? _).
  - apply dispatches_bind; [apply dispatches_errorCode |]. intros v.
    apply dispatches_bind; [| intros _; apply dispatches_ret].
    destruct (negb _); auto with dispatch.
  - cbv zeta. destruct (String.eqb _ _); [apply dispatches_ret |].
    apply dispatches_bind; [apply dispatches_checked |].
    intros name. apply dispatches_ret.
Qed.

(** The shape that [GetAuditEvents] and [GetRawAuditEvents] share. *)
Lemma endless_loop {C} (cycle : nat -> M (event C) unit)
      (loop : nat -> nat -> M (event C) unit) :
  (forall n, loop O n = running) ->
  (forall fuel n, loop (S fuel) n = cycle n ;;; loop fuel (S n)) ->
  (forall n, reads (trace (cycle n)) = 1%nat /\ result (cycle n) <> Running) ->
  forall fuel n,
    result (loop fuel n) <> Ok tt /\
    (reads (trace (loop fuel n)) <= fuel)%nat /\
    (result (loop fuel n) = Running -> reads (trace (loop fuel n)) = fuel).
Proof.
  intros H0 HS Hc. induction fuel as [| fuel IH]; intros n.
  - rewrite H0. cbn. repeat split; [discriminate | lia].
  - rewrite HS, result_bind, reads_bind.
    destruct (Hc n) as [H1 H2]. destruct (IH (S n)) as (I1 & I2 & I3).
    rewrite H1. destruct (result (cycle n)) as [[] | |];
      [| repeat split; [discriminate | lia | discriminate] | contradiction].
    repeat split; [assumption | lia |]. intros Hr. rewrite I3 by assumption. lia.
Qed.

(** X7. [GetAuditEvents] and [GetRawAuditEvents] never return: after any
    number of iterations the goroutine is still in its loop, one read into
    each iteration, unless a dispatch has panicked. *)
Theorem background_receivers_never_return
        (o : ByteOrder) (names : Z -> string)
        (parse : string -> Z -> bool -> AuditEvent + error)
        (s : Netlink) (fuel n : nat) :
  (result (GetAuditEvents o parse fuel s n) <> Ok tt /\
   (reads (trace (GetAuditEvents o parse fuel s n)) <= fuel)%nat /\
   (result (GetAuditEvents o parse fuel s n) = Running ->
    reads (trace (GetAuditEvents o parse fuel s n)) = fuel)) /\
  (result (GetRawAuditEvents o names fuel s n) <> Ok tt /\
   (reads (trace (GetRawAuditEvents o names fuel s n)) <= fuel)%nat /\
   (result (GetRawAuditEvents o names fuel s n) = Running ->
    reads (trace (GetRawAuditEvents o names fuel s n)) = fuel)).
Proof.
  split.
  - apply (endless_loop
             (fun n => r <- receive s n ;;
                       match r with
                       | inl msgs => forEach (eventOfMessage o parse) msgs
                       | inr _ => ret tt
                       end)
             (fun fuel n => GetAuditEvents o parse fuel s n)).
    + reflexivity.
    + intros f k. cbn [GetAuditEvents]. now rewrite bind_assoc.
    + apply cycle_of_GetAuditMessages.
  - apply (endless_loop
             (fun n => r <- receive s n ;;
                       match r with
                       | inl msgs => forEach (rawEventOfMessage o names) msgs
                       | inr _ => ret tt
                       end)
             (fun fuel n => GetRawAuditEvents o names fuel s n)).
    + reflexivity.
    + intros f k. cbn [GetRawAuditEvents]. now rewrite bind_assoc.
    + intros k. unfold receive. rewrite bind_assoc, bind_emit.
      cbn [trace result fst snd reads]. rewrite bind_ret.
      assert (dispatches (match Receive s k with
                          | inl msgs => forEach (rawEventOfMessage o names) msgs
                          | inr _ => ret tt
                          end)) as [H1 H2].
      { destruct (Receive s k);
          [apply dispatches_forEach, dispatches_rawEventOfMessage
          | apply dispatches_ret]. }
      now rewrite H1.
Qed.

(** ** Returning from a receiver with a done channel *)

Section CancellableReturn.

Context {C : Type} (cycle : nat -> M (event C) unit).
Hypothesis one_read :
  forall n, reads (trace (cycle n)) = 1%nat /\ result (cycle n) <> Running.

Lemma cancellable_returns (done : nat -> bool) (fuel n : nat) :
  result (cancellable cycle fuel done n) = Ok tt ->
  exists k, (k < fuel)%nat /\ done (n + k)%nat = true /\
            (forall j, (j < k)%nat -> done (n + j)%nat = false) /\
            reads (trace (cancellable cycle fuel done n)) = k.
Proof.
  revert n. induction fuel as [| fuel IH]; intros n; [discriminate |].
  cbn [cancellable]. destruct (done n) eqn:Hn.
  - intros _. exists O. rewrite Nat.add_0_r.
    repeat split; [lia | assumption | intros j Hj; lia].
  - rewrite result_bind, reads_bind. destruct (one_read n) as [H1 H2].
    rewrite H1. destruct (result (cycle n)) as [[] | |]; try discriminate.
    intros Hr. destruct (IH (S n) Hr) as (k & Hk & Hd & Hb & Hreads).
    exists (S k). rewrite <- Nat.add_succ_comm.
    repeat split; [lia | assumption | | lia].
    intros [| j] Hj; [now rewrite Nat.add_0_r |].
    rewrite <- Nat.add_succ_comm. apply Hb. lia.
Qed.

End CancellableReturn.

(** X8. [GetRawAuditMessages] and [GetAuditMessages] return for one reason
    only: when they have returned, a [select] had found the done channel
    signalled, all the ones before it had not, and the receiver had made
    exactly one read for each of these. *)
Theorem cancellable_receivers_return_on_signal_only
        (o : ByteOrder) (parse : string -> Z -> bool -> AuditEvent + error)
        (s : Netlink) (done : nat -> bool) (fuel : nat) :
  (result (GetRawAuditMessages o fuel s done 0) = Ok tt ->
   exists k, (k < fuel)%nat /\ done k = true /\
             (forall j, (j < k)%nat -> done j = false) /\
             reads (trace (GetRawAuditMessages o fuel s done 0)) = k) /\
  (result (GetAuditMessages o parse fuel s done 0) = Ok tt ->
   exists k, (k < fuel)%nat /\ done k = true /\
             (forall j, (j < k)%nat -> done j = false) /\
             reads (trace (GetAuditMessages o parse fuel s done 0)) = k).
Proof.
  split.
  - rewrite GetRawAuditMessages_cancellable.
    apply cancellable_returns, cycle_of_GetRawAuditMessages.
  - rewrite GetAuditMessages_cancellable.
    apply cancellable_returns, cycle_of_GetAuditMessages.
Qed.

(** X9. As long as no [select] finds the done channel signalled,
    [GetAuditMessages] does what the goroutine of [GetAuditEvents] does,
    event for event. *)
Theorem GetAuditMessages_as_GetAuditEvents
        (o : ByteOrder) (parse : string -> Z -> bool -> AuditEvent + error)
        (s : Netlink) (done : nat -> bool) (fuel n : nat) :
  (forall j, (j < fuel)%nat -> done (n + j)%nat = false) ->
  GetAuditMessages o parse fuel s done n = GetAuditEvents o parse fuel s n.
Proof.
  revert n. induction fuel as [| fuel IH]; intros n Hd; [reflexivity |].
  cbn [GetAuditMessages GetAuditEvents].
  rewrite <- (Nat.add_0_r n) at 1. rewrite (Hd O) by lia.
  rewrite IH; [reflexivity |].
  intros j Hj. rewrite Nat.add_succ_comm. apply Hd. lia.
Qed.

Lemma GetAuditMessages_as_GetAuditEvents_witness :
  GetAuditMessages LittleEndian rejectingParser 2 steadyTransport
                   doneDuringSecondCycle 0 =
  GetAuditEvents LittleEndian rejectingParser 2 steadyTransport 0.
Proof.
  apply (GetAuditMessages_as_GetAuditEvents LittleEndian rejectingParser
           steadyTransport doneDuringSecondCycle 2 0).
  intros j Hj. unfold doneDuringSecondCycle. apply Nat.leb_gt. lia.
Defined.

(** ** The messages of one read *)

Lemma forEach_all_ok {E A} (f : A -> M E unit) (l : list A) :
  Forall (fun x => result (f x) = Ok tt) l ->
  forEach f l = (List.concat (map (fun x => trace (f x)) l), Ok tt).
Proof.
  induction 1 as [| x l Hx _ IH]; [reflexivity |].
  cbn [forEach map List.concat]. rewrite IH, (M_eta (f x)), Hx. reflexivity.
Qed.

Lemma forEach_panics {E A} (f : A -> M E unit) (l1 l2 : list A) (x : A) :
  Forall (fun x => result (f x) = Ok tt) l1 ->
  result (f x) = Panic ->
  forEach f (l1 ++ x :: l2) =
  (List.concat (map (fun x => trace (f x)) l1) ++ trace (f x), Panic).
Proof.
  intros H1 Hx. induction H1 as [| y l1 Hy _ IH].
  - cbn [app forEach map List.concat]. rewrite (M_eta (f x)) at 1.
    rewrite Hx. reflexivity.
  - cbn [app forEach map List.concat]. rewrite IH, (M_eta (f y)), Hy.
    cbn. now rewrite app_assoc.
Qed.

Lemma eventOfMessage_calls (o : ByteOrder) parse (msg : NetlinkMessage) :
  (Type_ (Header msg) = NLMSG_ERROR -> 4 <= cap (Data msg)) ->
  eventOfMessage o parse msg = (map Callback (eventCalls o parse msg), Ok tt).
Proof.
  intros Hc. unfold eventCalls, isAck.
  destruct (Z.eqb_spec (Type_ (Header msg)) NLMSG_ERROR) as [e | ne].
  - rewrite eventOfMessage_error by auto. cbn [andb].
    now destruct (codeAt o (Data msg) =? 0).
  - unfold eventOfMessage.
    destruct (Z.eqb_spec (Type_ (Header msg)) NLMSG_ERROR); [contradiction |].
    cbn [andb]. now destruct (NewAuditEvent parse msg).
Qed.

(** X10. For the messages of one read, each error message with four bytes
    to read its code from, [GetAuditEvents] and [GetAuditMessages] invoke
    the callback in the order of the messages, once for every message
    that is no acknowledgement and not at all for one that is; the number
    of invocations is the number of messages that are no acknowledgements. *)
Theorem parsed_dispatch_in_order
        (o : ByteOrder) (parse : string -> Z -> bool -> AuditEvent + error)
        (msgs : list NetlinkMessage) :
  Forall (fun msg => Type_ (Header msg) = NLMSG_ERROR -> 4 <= cap (Data msg))
         msgs ->
  forEach (eventOfMessage o parse) msgs =
    (map Callback (flat_map (eventCalls o parse) msgs), Ok tt) /\
  List.length (trace (forEach (eventOfMessage o parse) msgs)) =
    List.length (filter (fun msg => negb (isAck o msg)) msgs).
Proof.
  intros H.
  assert (forEach (eventOfMessage o parse) msgs =
          (map Callback (flat_map (eventCalls o parse) msgs), Ok tt)) as E.
  { induction H as [| msg msgs Hm _ IH]; [reflexivity |].
    cbn [forEach flat_map]. rewrite IH, eventOfMessage_calls by assumption.
    cbn. now rewrite map_app. }
  split; [exact E |]. rewrite E. cbn [trace fst]. rewrite length_map.
  clear E. induction H as [| msg msgs Hm _ IH]; [reflexivity |].
  cbn [flat_map filter]. rewrite length_app, IH.
  unfold eventCalls. destruct (isAck o msg); cbn [negb]; [reflexivity |].
  now destruct (_ =? _).
Qed.

Lemma parsed_dispatch_in_order_witness :
  forEach (eventOfMessage LittleEndian rejectingParser) threeMessages =
    ([Callback (EventCb None
                  (Some (ErrOther "parsing failed: malformed audit message")));
      Callback (EventCb None (Some (ErrReceiving (-5))))], Ok tt) /\
  List.length (trace (forEach (eventOfMessage LittleEndian rejectingParser)
                              threeMessages)) = 2%nat.
Proof.
  refine (parsed_dispatch_in_order LittleEndian rejectingParser threeMessages _).
  repeat constructor; intros _; vm_compute; discriminate.
Defined.

(** X11. An error message whose code cannot be read, for want of four
    bytes up to the capacity of its data, ends [GetAuditMessages] with a
    panic: the messages before it in the read have had their callback
    invocations, the ones behind it get none, and no read follows. *)
Theorem GetAuditMessages_panics_on_short_error
        (o : ByteOrder) (parse : string -> Z -> bool -> AuditEvent + error)
        (s : Netlink) (done : nat -> bool) (fuel n : nat)
        (before behind : list NetlinkMessage) (msg : NetlinkMessage) :
  done n = false ->
  Receive s n = inl (before ++ msg :: behind) ->
  Forall (fun msg => Type_ (Header msg) = NLMSG_ERROR -> 4 <= cap (Data msg))
         before ->
  Type_ (Header msg) = NLMSG_ERROR -> cap (Data msg) < 4 ->
  GetAuditMessages o parse (S fuel) s done n =
  (Read :: map Callback (flat_map (eventCalls o parse) before), Panic).
Proof.
  intros Hd Hr Hb Ht Hc. cbn [GetAuditMessages]. rewrite Hd.
  unfold receive. rewrite !bind_assoc, bind_emit, bind_ret, Hr.
  assert (eventOfMessage o parse msg = panic) as Hp.
  { unfold eventOfMessage. rewrite Ht, Z.eqb_refl, errorCode_spec.
    now destruct (Z.leb_spec 4 (cap (Data msg))); [lia |]. }
  rewrite (forEach_panics (eventOfMessage o parse) before behind msg).
  - rewrite Hp. cbn [trace result fst snd bind panic]. rewrite app_nil_r.
    f_equal. f_equal.
    clear Hr. induction Hb as [| m l Hm _ IH]; [reflexivity |].
    cbn [map List.concat flat_map].
    rewrite IH, eventOfMessage_calls, map_app by assumption. reflexivity.
  - clear Hr. induction Hb as [| m l Hm _ IH]; constructor; [| assumption].
    now rewrite eventOfMessage_calls.
  - now rewrite Hp.
Qed.

Lemma GetAuditMessages_panics_on_short_error_witness :
  GetAuditMessages LittleEndian rejectingParser 3 shortErrorTransport neverDone 0 =
  ([Read;
    Callback (EventCb None
                (Some (ErrOther "parsing failed: malformed audit message")))],
   Panic).
Proof.
  refine (GetAuditMessages_panics_on_short_error LittleEndian rejectingParser
            shortErrorTransport neverDone 2 0 [namelessMessage] [eioMessage]
            emptyErrorMessage _ _ _ _ _).
  - reflexivity.
  - reflexivity.
  - repeat constructor. intros H. vm_compute in H. discriminate H.
  - reflexivity.
  - vm_compute. reflexivity.
Defined.

(** ** Records in GetRawAuditEvents *)

Lemma strFrom_spec (s : string) (n : nat) :
  strFrom s n =
  if (n <=? String.length s)%nat
  then Some (substring n (String.length s - n) s) else None.
Proof. reflexivity. Qed.

(** X12. For a message that is no error frame, [GetRawAuditEvents] invokes
    the callback exactly once, or panics; it panics exactly when the name
    of the type is not the placeholder and has fewer than the six
    characters that are cut off it. The callback gets either the text,
    which is "type=", the name less its first six characters, " msg=", the
    data and a line feed, with a nil error; or the empty text with the
    error of the unknown type, when the name is the placeholder. *)
Theorem rawEventOfMessage_record
        (o : ByteOrder) (names : Z -> string) (msg : NetlinkMessage) :
  Type_ (Header msg) <> NLMSG_ERROR ->
  let t := Type_ (Header msg) in
  let name := names t in
  (result (rawEventOfMessage o names msg) = Panic <->
   name <> placeholder t /\ (String.length name < 6)%nat) /\
  (result (rawEventOfMessage o names msg) = Ok tt ->
   exists m err,
     trace (rawEventOfMessage o names msg) = [Callback (RawEventCb m err)] /\
     ((name = placeholder t /\ m = EmptyString /\ err = Some (ErrUnknownType t)) \/
      (name <> placeholder t /\ err = None /\
       m = ("type=" ++ substring 6 (String.length name - 6) name ++ " msg="
              ++ string_of_slice (Data msg) ++ newline)%string))) /\
  result (rawEventOfMessage o names msg) <> Running.
Proof.
  intros Ht t name. unfold rawEventOfMessage. fold t.
  destruct (Z.eqb_spec t NLMSG_ERROR) as [| _]; [contradiction |].
  cbv zeta. fold name.
  destruct (String.eqb_spec name (placeholder t)) as [e | ne].
  - rewrite bind_ret. cbn [fst snd result trace cb emit].
    split; [| split]; [| | discriminate].
    + split; [discriminate | intros [H _]; contradiction].
    + intros _. eexists _, _. split; [reflexivity |]. left. auto.
  - rewrite strFrom_spec. destruct (Nat.leb_spec 6 (String.length name)) as [Hl | Hl].
    + cbn [checked]. rewrite !bind_ret. cbn [fst snd result trace cb emit].
      split; [| split]; [| | discriminate].
      * split; [discriminate | intros [_ H]; lia].
      * intros _. eexists _, _. split; [reflexivity |]. right. auto.
    + cbn [checked bind panic result snd].
      split; [| split]; [| discriminate | discriminate].
      split; auto.
Qed.

Lemma rawEventOfMessage_record_witness :
  let t := AUDIT_SYSCALL in
  let name := "AUDIT_SYSCALL"%string in
  (result (rawEventOfMessage LittleEndian someNames syscallMessage) = Panic <->
   name <> placeholder t /\ (String.length name < 6)%nat) /\
  (result (rawEventOfMessage LittleEndian someNames syscallMessage) = Ok tt ->
   exists m err,
     trace (rawEventOfMessage LittleEndian someNames syscallMessage) =
       [Callback (RawEventCb m err)] /\
     ((name = placeholder t /\ m = EmptyString /\ err = Some (ErrUnknownType t)) \/
      (name <> placeholder t /\ err = None /\
       m = ("type=" ++ substring 6 (String.length name - 6) name ++ " msg="
              ++ string_of_slice (Data syscallMessage) ++ newline)%string))) /\
  result (rawEventOfMessage LittleEndian someNames syscallMessage) <> Running.
Proof.
  refine (rawEventOfMessage_record LittleEndian someNames syscallMessage _).
  vm_compute. discriminate.
Defined.

Example GetRawAuditEvents_text :
  rawEventOfMessage LittleEndian someNames syscallMessage =
  ([Callback (RawEventCb ("type=SYSCALL msg=ABCD" ++ newline) None)], Ok tt).
Proof. vm_compute. reflexivity. Qed.

Lemma runesDifferFrom_spec (n : nat) :
  forall z, runesDifferFrom n z = true ->
            forall t, z <= t < z + Z.of_nat n -> string_of_rune t <> Itoa t.
Proof.
  induction n as [| n IH]; intros z H t Ht; [lia |].
  cbn [runesDifferFrom] in H. apply andb_true_iff in H as [H1 H2].
  destruct (Z.eq_dec t z) as [-> | Hne].
  - intros E. rewrite E, String.eqb_refl in H1. discriminate H1.
  - apply (IH (z + 1) H2). lia.
Qed.

(** X13. The error that [GetRawAuditEvents] makes for a type without a
    name does not show the type code: its text ends with the code point
    of that number as a character, which for no 16-bit type code is the
    decimal numeral that the error of [NewAuditEvent] shows. *)
Theorem unknown_type_error_has_no_numeral (t : Z) :
  0 <= t < 65536 ->
  Error (ErrUnknownType t) = ("Unknown Type: " ++ string_of_rune t)%string /\
  string_of_rune t <> Itoa t /\
  Error (ErrUnknownType t) <> ("Unknown Type: " ++ Itoa t)%string /\
  Error (ErrUnknownMessageType t) =
    ("NewAuditEvent failed: unknown message type " ++ Itoa t)%string.
Proof.
  intros Ht.
  assert (string_of_rune t <> Itoa t) as Hne.
  { apply (runesDifferFrom_spec (Z.to_nat 65536) 0); [| lia].
    vm_compute. reflexivity. }
  split; [reflexivity |]. split; [exact Hne |]. split; [| reflexivity].
  cbn [Error]. intros E. apply Hne.
  cbn [String.append] in E. now repeat injection E as E.
Qed.

Lemma unknown_type_error_has_no_numeral_witness :
  Error (ErrUnknownType 1300) =
    ("Unknown Type: " ++ string_of_rune 1300)%string /\
  string_of_rune 1300 <> Itoa 1300 /\
  Error (ErrUnknownType 1300) <> ("Unknown Type: " ++ Itoa 1300)%string /\
  Error (ErrUnknownMessageType 1300) =
    ("NewAuditEvent failed: unknown message type " ++ Itoa 1300)%string.
Proof. apply (unknown_type_error_has_no_numeral 1300). lia. Defined.

(** ** A frame without its padding, seen from the receiver *)

(** X14. When a read of [GetRawAuditMessages] hands on a buffer that is
    one frame, no error frame, of a length that is no multiple of four
    and without the padding up to one: the callback gets the frame with
    all of its text, and then the receiver panics; it makes no further
    read, whatever the done channel and the transport would have given. *)
Theorem GetRawAuditMessages_panics_without_padding
        (o : ByteOrder) (s : Netlink) (done : nat -> bool) (fuel n : nat)
        (b : slice) :
  done n = false ->
  ReceiveNoParse s n = inl b ->
  NLMSG_HDRLEN <= len b ->
  Len (headerAt o b) = len b ->
  len b mod 4 <> 0 ->
  Type_ (headerAt o b) <> NLMSG_ERROR ->
  GetRawAuditMessages o (S fuel) s done n =
  ([Read;
    Callback (RawEventTypeCb (Type_ (headerAt o b))
                (string_of_list_byte (skipn 16 (elems b))) None)],
   Panic).
Proof.
  intros Hd Hr Hb Hl Hm Ht.
  assert (NLMSG_HDRLEN <= Len (headerAt o b) <= len b) as Hv by lia.
  assert (textBound o b = len (afterHeader b)) as Hx.
  { unfold textBound. cbv zeta. rewrite len_afterHeader, Hl by assumption.
    destruct (Z.eqb_spec (len b - NLMSG_HDRLEN) (len b)) as [e | _];
      [unfold NLMSG_HDRLEN in e; lia | reflexivity]. }
  assert (firstn (Z.to_nat (len (afterHeader b))) (elems (afterHeader b)) =
          skipn 16 (elems b)) as Hf.
  { apply firstn_all2. unfold len. rewrite Nat2Z.id. apply Nat.le_refl. }
  assert (codeReadable (headerAt o b) (afterHeader b) = true) as Hc.
  { unfold codeReadable.
    now destruct (Z.eqb_spec (Type_ (headerAt o b)) NLMSG_ERROR). }
  assert (split o b =
          ([Callback (RawEventTypeCb (Type_ (headerAt o b))
                        (string_of_list_byte (skipn 16 (elems b))) None)],
           Panic)) as Hs.
  { unfold split. rewrite splitLoop_round by assumption.
    rewrite (M_eta (splitBody o None b)).
    rewrite trace_splitBody, result_splitBody, Hc, Hx by assumption.
    rewrite deliver_plain, Hf
      by (try assumption; pose proof (len_le_cap (afterHeader b)); lia).
    pose proof (nlmAlignOf_unaligned (len b) Hm). rewrite Hl.
    now destruct (Z.leb_spec (nlmAlignOf (len b)) (len b)); [lia |]. }
  cbn [GetRawAuditMessages]. rewrite Hd. unfold receiveNoParse.
  rewrite !bind_assoc, bind_emit, bind_ret, Hr, Hs. reflexivity.
Qed.

Lemma GetRawAuditMessages_panics_without_padding_witness :
  GetRawAuditMessages LittleEndian 4 unpaddedTransport neverDone 0 =
  ([Read; Callback (RawEventTypeCb 1300 "A" None)], Panic).
Proof.
  refine (GetRawAuditMessages_panics_without_padding LittleEndian
            unpaddedTransport neverDone 3 0 unpadded17 _ _ _ _ _ _).
  - reflexivity.
  - reflexivity.
  - vm_compute. discriminate.
  - vm_compute. reflexivity.
  - vm_compute. discriminate.
  - vm_compute. discriminate.
Defined.

(** ** A whole run of GetRawAuditMessages *)

Lemma calls_app {C} (t u : list (event C)) : calls (t ++ u) = calls t ++ calls u.
Proof.
  induction t as [| [| c] t IH]; cbn [app calls];
    [reflexivity | assumption | now rewrite IH].
Qed.

Lemma calls_map_Callback {C} (l : list C) : calls (map Callback l) = l.
Proof. induction l as [| c l IH]; cbn; [reflexivity | now rewrite IH]. Qed.

Lemma reads_map_Callback {C} (l : list C) : reads (map Callback l) = O.
Proof. induction l as [| c l IH]; cbn; [reflexivity | assumption]. Qed.

(** One cycle on a read that fails or hands on frames as above. *)
Lemma cycle_handsOn (o : ByteOrder) (s : Netlink) (i : nat)
      (fs : list (list byte)) :
  handsOn o s i fs ->
  (r <- @receiveNoParse RawEventTypeCall s i ;;
   match r with
   | inl b => split o b
   | inr _ => ret tt
   end) = (Read :: map Callback (flat_map (frameCalls o) fs), Ok tt).
Proof.
  intros H. unfold receiveNoParse. rewrite bind_assoc, bind_emit, bind_ret.
  destruct H as [(e & -> & ->) | (tail & sp & -> & Hw & Ht)]; [reflexivity |].
  now rewrite split_frames.
Qed.

(** X15. A whole run of [GetRawAuditMessages]: when every read up to the
    signal on the done channel either fails or hands on a buffer of frames
    as the transport lays them out, the receiver returns at the signal
    without a panic, having made one read for each [select] that found no
    signal, and the callback has got the frames of all these reads, in the
    order of the reads and of the frames in them, less the
    acknowledgements; a read that failed has added nothing. *)
Theorem GetRawAuditMessages_run
        (o : ByteOrder) (s : Netlink) (done : nat -> bool)
        (frames : nat -> list (list byte)) (k : nat) :
  forall fuel n : nat,
    (forall i, (i < k)%nat -> done (n + i)%nat = false) ->
    done (n + k)%nat = true ->
    (forall i, (i < k)%nat -> handsOn o s (n + i) (frames (n + i)%nat)) ->
    (k < fuel)%nat ->
    result (GetRawAuditMessages o fuel s done n) = Ok tt /\
    reads (trace (GetRawAuditMessages o fuel s done n)) = k /\
    calls (trace (GetRawAuditMessages o fuel s done n)) =
      flat_map (fun i => flat_map (frameCalls o) (frames i)) (seq n k).
Proof.
  induction k as [| k IH]; intros fuel n Hf Hd Hh Hk;
    (destruct fuel as [| fuel]; [lia |]); cbn [GetRawAuditMessages].
  - rewrite Nat.add_0_r in Hd. rewrite Hd. now cbn.
  - assert (done n = false) as Hn
      by (specialize (Hf O ltac:(lia)); now rewrite Nat.add_0_r in Hf).
    rewrite Hn, <- bind_assoc.
    rewrite (cycle_handsOn o s n (frames n))
      by (specialize (Hh O ltac:(lia)); now rewrite Nat.add_0_r in Hh).
    destruct (IH fuel (S n)) as (I1 & I2 & I3).
    + intros i Hi. rewrite Nat.add_succ_comm. apply Hf. lia.
    + now rewrite Nat.add_succ_comm.
    + intros i Hi. rewrite Nat.add_succ_comm. apply Hh. lia.
    + lia.
    + rewrite result_bind, trace_bind. cbn [result trace fst snd].
      rewrite reads_app, calls_app. cbn [reads calls seq flat_map].
      rewrite reads_map_Callback, calls_map_Callback, I2, I3.
      split; [assumption |]. split; [lia | reflexivity].
Qed.

Lemma GetRawAuditMessages_run_witness :
  result (GetRawAuditMessages LittleEndian 5 mixedTransport
            doneDuringThirdCycle 0) = Ok tt /\
  reads (trace (GetRawAuditMessages LittleEndian 5 mixedTransport
                  doneDuringThirdCycle 0)) = 3%nat /\
  calls (trace (GetRawAuditMessages LittleEndian 5 mixedTransport
                  doneDuringThirdCycle 0)) =
    [RawEventTypeCb 1300 "ABCD" None; RawEventTypeCb 1300 "EF" None;
     RawEventTypeCb 1300 "ABCD" None].
Proof.
  refine (GetRawAuditMessages_run LittleEndian mixedTransport
            doneDuringThirdCycle mixedFrames 3 5 0 _ _ _ _).
  - intros i Hi. unfold doneDuringThirdCycle. apply Nat.leb_gt. cbn. lia.
  - reflexivity.
  - intros [| [| [| i]]] Hi; [| | | lia].
    + right. exists [], []. repeat split; [| cbn; lia].
      repeat constructor; vm_compute; try discriminate; try reflexivity.
    + left. eexists. split; reflexivity.
    + right. exists [], []. repeat split; [| cbn; lia].
      repeat constructor; vm_compute; try discriminate; try reflexivity.
  - lia.
Defined.
